(** * FacebookParser: the extraction pipeline of the Gmail-to-blog automation

    A shallow embedding of [src/services/FacebookParser.js] (and of the
    importance scorer of [BlogGenerator], beside the parser's own), with
    the properties the specification states about them.

    Conventions.
    - A JavaScript string is the list of its UTF-16 code units; [length] is
      JavaScript's [.length].
    - A regular-expression literal of the source is written as a term of
      [regex] below and run by a backtracking matcher that returns the
      alternatives in the priority order of ECMAScript.
    - [doc], the handle [$] that [cheerio.load] returns, is a record of the
      queries the parser makes of it; the HTML parser itself and the [Date]
      parser of the JavaScript engine are inputs of the model.
    - Calls to the logger write to log files only, and are left out. *)

From Stdlib Require Import List Bool Arith NArith ZArith QArith Qminmax Lia.
From Stdlib Require Import Ascii.
From Stdlib Require String.
Import String.StringSyntax.
Bind Scope string_scope with String.string.
Delimit Scope string_scope with string.
Import ListNotations.
Close Scope Q_scope.

Set Implicit Arguments.

(** ** JavaScript strings *)

Module Js.

Definition char := N.
Definition jsstring := list char.

(** The code units of an ASCII literal of the source. *)
Definition lit (s : String.string) : jsstring :=
  map N_of_ascii (String.list_ascii_of_string s).

Definition one_of (cs : list N) (c : char) : bool :=
  existsb (N.eqb c) cs.

Definition between (lo hi : N) (c : char) : bool :=
  (lo <=? c)%N && (c <=? hi)%N.

(** LineTerminator: LF, CR, LS, PS. *)
Definition is_line_terminator (c : char) : bool :=
  one_of [10; 13; 8232; 8233]%N c.

(** WhiteSpace and LineTerminator: the class [\s], and what [trim] strips. *)
Definition is_space (c : char) : bool :=
  one_of [9; 10; 11; 12; 13; 32; 160; 5760; 8232; 8233; 8239; 8287; 12288; 65279]%N c
  || between 8192 8202 c.

Definition is_digit (c : char) : bool := between 48 57 c.

(** The class [.] (no [s] flag). *)
Definition dot (c : char) : bool := negb (is_line_terminator c).

(** Canonicalize of a case-insensitive, non-unicode match.  Every pattern of
    the source is ASCII, and a code unit above 127 never canonicalizes to an
    ASCII one, so the ASCII letters are the only ones that matter. *)
Definition canon (c : char) : char :=
  if between 97 122 c then (c - 32)%N else c.

Definition char_eq (ci : bool) (a b : char) : bool :=
  if ci then (canon a =? canon b)%N else (a =? b)%N.

(** [strip_prefix ci w s]: what is left of [s] after the literal [w]. *)
Fixpoint strip_prefix (ci : bool) (w s : jsstring) : option jsstring :=
  match w, s with
  | [], _ => Some s
  | _ :: _, [] => None
  | a :: w', b :: s' => if char_eq ci a b then strip_prefix ci w' s' else None
  end.

(** Equality of strings, [===]. *)
Fixpoint eqb (a b : jsstring) : bool :=
  match a, b with
  | [], [] => true
  | x :: a', y :: b' => (x =? y)%N && eqb a' b'
  | _, _ => false
  end.

(** [String.prototype.includes]. *)
Fixpoint includes (w s : jsstring) : bool :=
  match strip_prefix false w s with
  | Some _ => true
  | None => match s with
            | [] => false
            | _ :: t => includes w t
            end
  end.

Fixpoint drop_while (p : char -> bool) (s : jsstring) : jsstring :=
  match s with
  | [] => []
  | c :: t => if p c then drop_while p t else s
  end.

Fixpoint take_while (A : Type) (p : A -> bool) (l : list A) : list A :=
  match l with
  | [] => []
  | x :: t => if p x then x :: take_while p t else []
  end.

(** [String.prototype.trim]. *)
Definition trim (s : jsstring) : jsstring :=
  rev (drop_while is_space (rev (drop_while is_space s))).

(** [String.prototype.split] on a one-character separator. *)
Fixpoint split (sep : char) (s : jsstring) : list jsstring :=
  match s with
  | [] => [[]]
  | c :: t =>
      if (c =? sep)%N then [] :: split sep t
      else match split sep t with
           | [] => [[c]]
           | l :: ls => (c :: l) :: ls
           end
  end.

(** [Array.prototype.join]. *)
Fixpoint join (sep : jsstring) (ls : list jsstring) : jsstring :=
  match ls with
  | [] => []
  | [l] => l
  | l :: ls' => l ++ sep ++ join sep ls'
  end.

(** JavaScript truthiness of a string-or-null value: [null], [undefined]
    and the empty string are falsy. *)
Definition falsy (v : option jsstring) : bool :=
  match v with
  | None => true
  | Some [] => true
  | Some (_ :: _) => false
  end.

End Js.

Import Js.

(** ** Regular expressions

    The fragment of ECMAScript regular expressions the parser uses: literals,
    sequence, alternation, the anchors [^] and [$] (no [m] flag), one
    capturing group, and quantified character classes, greedy or lazy.  The
    matcher returns the successful continuations in backtracking order, so
    that the first one is the match ECMAScript reports. *)

Module Regex.

Inductive regex : Type :=
  | Eps
  | Bol
  | Eol
  | Lit (w : jsstring)
  | Seq (a b : regex)
  | Alt (a b : regex)
  | Rep (greedy : bool) (p : char -> bool) (lo : nat) (hi : option nat)
  | Group (a : regex).

(** A pattern with its [i] flag. *)
Record regexp : Type := mkRegexp { ignoreCase : bool; source : regex }.

(** A position in the subject: the index reached, the text from there on,
    and what group 1 captured so far. *)
Record mstate : Type := mkState {
  pos : nat;
  rest : jsstring;
  cap : option jsstring
}.

Definition advance (k : nat) (st : mstate) : mstate :=
  mkState (pos st + k) (skipn k (rest st)) (cap st).

Definition run_len (p : char -> bool) (s : jsstring) : nat :=
  length (take_while p s).

(** The repetition counts a quantifier tries, in the order it tries them. *)
Definition rep_counts (greedy : bool) (lo : nat) (hi : option nat) (n : nat)
  : list nat :=
  let top := match hi with Some h => Nat.min h n | None => n end in
  let ks := seq lo (S top - lo) in
  if greedy then rev ks else ks.

Fixpoint run (ci : bool) (r : regex) (st : mstate) : list mstate :=
  match r with
  | Eps => [st]
  | Bol => if (pos st =? 0)%nat then [st] else []
  | Eol => match rest st with [] => [st] | _ :: _ => [] end
  | Lit w =>
      match strip_prefix ci w (rest st) with
      | Some s' => [mkState (pos st + length w) s' (cap st)]
      | None => []
      end
  | Seq a b => flat_map (run ci b) (run ci a st)
  | Alt a b => run ci a st ++ run ci b st
  | Rep g p lo hi =>
      map (fun k => advance k st) (rep_counts g lo hi (run_len p (rest st)))
  | Group a =>
      map (fun st' =>
             mkState (pos st') (rest st')
                     (Some (firstn (pos st' - pos st) (rest st))))
          (run ci a st)
  end.

(** A match: where it starts, where it ends, the text after it, group 1. *)
Record mresult : Type := mkResult {
  m_index : nat;
  m_end : nat;
  m_after : jsstring;
  m_group : option jsstring
}.

(** The match that starts at index [i], where [s] is the text from [i] on. *)
Definition match_at (re : regexp) (i : nat) (s : jsstring) : option mresult :=
  match run (ignoreCase re) (source re) (mkState i s None) with
  | st :: _ => Some (mkResult i (pos st) (rest st) (cap st))
  | [] => None
  end.

(** RegExpBuiltinExec without the [g] and [y] flags: the leftmost match. *)
Fixpoint search (re : regexp) (i : nat) (s : jsstring) : option mresult :=
  match match_at re i s with
  | Some m => Some m
  | None => match s with
            | [] => None
            | _ :: t => search re (S i) t
            end
  end.

Definition exec (re : regexp) (s : jsstring) : option mresult := search re 0 s.

(** [RegExp.prototype.test]. *)
Definition test (re : regexp) (s : jsstring) : bool :=
  match exec re s with Some _ => true | None => false end.

(** [String.prototype.replace] with a pattern without the [g] flag. *)
Definition replace (re : regexp) (by_ : jsstring) (s : jsstring) : jsstring :=
  match exec re s with
  | Some m => firstn (m_index m) s ++ by_ ++ m_after m
  | None => s
  end.

(** [String.prototype.replace] with a [g] pattern.  [skip] counts the
    characters still to pass before [lastIndex]; an empty match advances
    [lastIndex] by one and copies the character it stands before. *)
Fixpoint replace_from (re : regexp) (by_ : jsstring) (i skip : nat)
    (s : jsstring) : jsstring :=
  match skip with
  | S k =>
      match s with
      | [] => []
      | _ :: t => replace_from re by_ (S i) k t
      end
  | O =>
      match match_at re i s with
      | Some m =>
          match s with
          | [] => by_
          | c :: t =>
              match m_end m - i with
              | O => by_ ++ c :: replace_from re by_ (S i) 0 t
              | S k => by_ ++ replace_from re by_ (S i) k t
              end
          end
      | None =>
          match s with
          | [] => []
          | c :: t => c :: replace_from re by_ (S i) 0 t
          end
      end
  end.

Definition replace_all (re : regexp) (by_ : jsstring) (s : jsstring) : jsstring :=
  replace_from re by_ 0 0 s.

(** Shorthands for writing the literals of the source. *)
Definition L (s : String.string) : regex := Lit (lit s).
Definition star (p : char -> bool) : regex := Rep true p 0 None.
Definition plus (p : char -> bool) : regex := Rep true p 1 None.
Definition plus_lazy (p : char -> bool) : regex := Rep false p 1 None.

Fixpoint alts (r : regex) (rs : list regex) : regex :=
  match rs with
  | [] => r
  | r' :: rs' => Alt r (alts r' rs')
  end.

Fixpoint seqs (r : regex) (rs : list regex) : regex :=
  match rs with
  | [] => r
  | r' :: rs' => Seq r (seqs r' rs')
  end.

End Regex.

Import Regex.

(** ** Completions: a value, or a thrown exception *)

Module Completion.

Inductive exn : Type := TypeError | RangeError.

Inductive completion (A : Type) : Type :=
  | Normal (a : A)
  | Throw (e : exn).

Arguments Throw {A} e.

Definition bind (A B : Type) (c : completion A) (k : A -> completion B)
  : completion B :=
  match c with
  | Normal a => k a
  | Throw e => Throw e
  end.

(** [try { c } catch (error) { h error }]. *)
Definition try_catch (A : Type) (c : completion A) (h : exn -> completion A)
  : completion A :=
  match c with
  | Normal a => Normal a
  | Throw e => h e
  end.

End Completion.

Import Completion.

Notation "x <- c ;; k" := (bind c (fun x => k))
  (at level 61, c at next level, right associativity).

(** ** The [Date] object

    A [Date] holds a time value, milliseconds since the epoch, or NaN
    ([None]).  What strings [Date.parse] accepts is left to the engine and is a
    parameter of the parser below; [toISOString] is the engine's fixed
    rendering, [YYYY-MM-DDTHH:mm:ss.sssZ] with an expanded year outside
    0..9999, and throws a RangeError on an invalid date. *)

Module JsDate.

Local Open Scope Z_scope.

Definition date := option Z.

Definition TimeClip (t : Z) : date :=
  if Z.abs t <=? 8640000000000000 then Some t else None.

Definition msPerDay : Z := 86400000.

(** The civil date of a day number (days since 1970-01-01), in the
    proleptic Gregorian calendar. *)
Definition civil_of_days (days : Z) : Z * Z * Z :=
  let z := days + 719468 in
  let era := z / 146097 in
  let doe := z - era * 146097 in
  let yoe := (doe - doe / 1460 + doe / 36524 - doe / 146096) / 365 in
  let doy := doe - (365 * yoe + yoe / 4 - yoe / 100) in
  let mp := (5 * doy + 2) / 153 in
  let d := doy - (153 * mp + 2) / 5 + 1 in
  let m := if mp <? 10 then mp + 3 else mp - 9 in
  let y := yoe + era * 400 + (if m <=? 2 then 1 else 0) in
  (y, m, d).

(** The last [w] decimal digits of [n], most significant first. *)
Fixpoint digits (w : nat) (n : Z) : jsstring :=
  match w with
  | O => []
  | S w' => digits w' (n / 10) ++ [Z.to_N (48 + n mod 10)]
  end.

Definition render_year (y : Z) : jsstring :=
  if (0 <=? y) && (y <=? 9999) then digits 4 y
  else if y <? 0 then lit "-" ++ digits 6 (- y)
  else lit "+" ++ digits 6 y.

Definition render (t : Z) : jsstring :=
  let day := t / msPerDay in
  let ms := t mod msPerDay in
  let '(y, m, d) := civil_of_days day in
  render_year y ++ lit "-" ++ digits 2 m ++ lit "-" ++ digits 2 d ++ lit "T"
  ++ digits 2 (ms / 3600000) ++ lit ":" ++ digits 2 (ms / 60000 mod 60)
  ++ lit ":" ++ digits 2 (ms / 1000 mod 60) ++ lit "." ++ digits 3 (ms mod 1000)
  ++ lit "Z".

Definition toISOString (d : date) : completion jsstring :=
  match d with
  | Some t => Normal (render t)
  | None => Throw RangeError
  end.

End JsDate.

(** ** The document handle

    What the parser observes of [$ = cheerio.load(body)]: the elements a
    selector matches, in document order, each with its text content and its
    attributes, and the text of the whole document. *)

Module Cheerio.

(** A simple selector, and a selector group [a, b, c]. *)
Inductive simple : Type :=
  | AttrEq (name value : String.string)   (* [name="value"] *)
  | Class (name : String.string)          (* .name *)
  | Tag (name : String.string)            (* name *)
  | Contains (tag text : String.string).  (* tag:contains("text") *)

Definition selector : Type := list simple.

Record element : Type := mkElement {
  el_text : jsstring;
  attribs : list (String.string * jsstring)
}.

(** [$(elem).attr(name)]: the value, or [undefined]. *)
Fixpoint attr (name : String.string) (attrs : list (String.string * jsstring))
  : option jsstring :=
  match attrs with
  | [] => None
  | (k, v) :: more => if String.eqb k name then Some v else attr name more
  end.

Record handle : Type := mkHandle {
  select : selector -> list element;
  text : jsstring
}.

End Cheerio.

Import Cheerio.

(** ** FacebookParser *)

Module FacebookParser.

Inductive PostType : Type :=
  | photo | status | shared | video | link | group | page | post.

(** The string the source uses for each category. *)
Definition tag (t : PostType) : String.string :=
  match t with
  | photo => "photo" | status => "status" | shared => "shared"
  | video => "video" | link => "link" | group => "group"
  | page => "page" | post => "post"
  end.

Record Email : Type := mkEmail {
  subject : jsstring;
  from : jsstring;
  body : jsstring;
  date : jsstring
}.

Record Image : Type := mkImage { image_url : jsstring; image_alt : jsstring }.
Record Link : Type := mkLink { link_url : jsstring; link_text : jsstring }.

Record OriginalEmail : Type := mkOriginal {
  o_subject : jsstring;
  o_from : jsstring;
  o_date : jsstring
}.

(** The object literal [postData]; [author] and [content] may be [null]. *)
Record PostData : Type := mkPostData {
  author : option jsstring;
  content : option jsstring;
  postType : PostType;
  p_date : jsstring;
  images : list Image;
  links : list Link;
  originalEmail : OriginalEmail
}.

(** *** extractAuthor *)

Definition author_patterns : list regexp :=
  [ mkRegexp false (seqs (Group (plus_lazy dot)) [L " posted in"]);
    mkRegexp false (seqs (Group (plus_lazy dot)) [L " shared a post"]);
    mkRegexp false (seqs (Group (plus_lazy dot)) [L " added a new photo"]);
    mkRegexp false (seqs (Group (plus_lazy dot)) [L " updated their status"]);
    mkRegexp false (seqs (Group (plus_lazy dot)) [L " wrote a new post"]) ].

Definition not_newline (c : char) : bool := negb (one_of [10; 13]%N c).

(** [/(?:Posted by|From|By)\s+([^\n\r]+)/i] *)
Definition byline_pattern : regexp :=
  mkRegexp true
    (seqs (alts (L "Posted by") [L "From"; L "By"])
          [plus is_space; Group (plus not_newline)]).

(** [match[1].trim()]; a group that took no part in the match is
    [undefined], and [.trim()] of it a TypeError. *)
Definition group1_trimmed (m : mresult) : completion (option jsstring) :=
  match m_group m with
  | Some g => Normal (Some (trim g))
  | None => Throw TypeError
  end.

Fixpoint author_of_subject (patterns : list regexp) (subject : jsstring)
  : completion (option jsstring) :=
  match patterns with
  | [] => Normal None
  | pattern :: more =>
      match exec pattern subject with
      | Some m => group1_trimmed m
      | None => author_of_subject more subject
      end
  end.

Definition extractAuthor (subject : jsstring) (doc : handle)
  : completion (option jsstring) :=
  a <- author_of_subject author_patterns subject ;;
  match a with
  | Some name => Normal (Some name)
  | None =>
      let authorElements :=
        select doc [AttrEq "data-testid" "post_author"; Class "author";
                  Class "post-author"] in
      match authorElements with
      | first :: _ => Normal (Some (trim (el_text first)))
      | [] =>
          let textContent := text doc in
          match exec byline_pattern textContent with
          | Some authorMatch => group1_trimmed authorMatch
          | None => Normal None
          end
      end
  end.

(** *** The classifiers of the fallback scan *)

Definition date_only_char (c : char) : bool :=
  is_digit c || is_space c || (c =? 45)%N || (c =? 58)%N.

Definition isPostContent_patterns : list regexp :=
  [ mkRegexp true
      (Seq Bol (Group (alts (L "To help keep")
         [L "You're receiving"; L "This message was sent"; L "Facebook";
          L "Copyright"; L "Privacy"; L "Terms"])));
    mkRegexp true
      (Seq Bol (Group (alts (L "View")
         [L "Reply"; L "Like"; L "Comment"; L "Share"; L "Unsubscribe"])));
    mkRegexp true (Seq Bol (Group (alts (L "http") [L "www."])));
    mkRegexp false (seqs Bol [plus date_only_char; Eol]);
    mkRegexp false (seqs Bol [Rep true dot 0 (Some 5); Eol]) ].

Definition isPostContent (text : jsstring) : bool :=
  negb (existsb (fun pattern => test pattern text) isPostContent_patterns).

Definition isSystemMessage_patterns : list regexp :=
  [ mkRegexp true (L "facebook.com");
    mkRegexp true (L "unsubscribe");
    mkRegexp true (L "privacy policy");
    mkRegexp true (L "terms of service");
    mkRegexp true (L "help center");
    mkRegexp true (L "view on facebook") ].

Definition isSystemMessage (text : jsstring) : bool :=
  existsb (fun pattern => test pattern text) isSystemMessage_patterns.

(** *** cleanContent *)

Definition whitespace_run : regexp := mkRegexp false (plus is_space).

Definition blank_lines : regexp :=
  mkRegexp false (seqs (Lit [10%N]) [star is_space; Lit [10%N]]).

Definition cleanContent (content : jsstring) : jsstring :=
  trim (replace_all blank_lines [10%N]
          (replace_all whitespace_run (lit " ") content)).

(** *** extractContent *)

Definition selectors : list selector :=
  [ [AttrEq "data-testid" "post_message"];
    [Class "post-content"];
    [Class "message"];
    [Class "post-text"];
    [Class "userContent"];
    [Contains "p" "wrote:"];
    [Contains "div" "wrote:"] ].

Definition quoted_prefix (verb : String.string) : regexp :=
  mkRegexp true (seqs Bol [plus_lazy dot; L verb; star is_space]).

(** The text of a matched node, trimmed and without its
    ["... wrote:"], ["... said:"], ["... posted:"] prefixes. *)
Definition candidate (e : element) : jsstring :=
  let content := trim (el_text e) in
  let content := replace (quoted_prefix "wrote:") [] content in
  let content := replace (quoted_prefix "said:") [] content in
  let content := replace (quoted_prefix "posted:") [] content in
  content.

(** The loop over [selectors]. *)
Fixpoint cascade (doc : handle) (sels : list selector) : option jsstring :=
  match sels with
  | [] => None
  | selector :: more =>
      match select doc selector with
      | first :: _ =>
          let content := candidate first in
          if (10 <? length content)%nat then Some (cleanContent content)
          else cascade doc more
      | [] => cascade doc more
      end
  end.

(** The inner loop [for (j = ...; j < Math.min(i + 5, lines.length); j++)],
    with [steps] iterations left. *)
Fixpoint absorb (lines : list jsstring) (j steps : nat) (content : jsstring)
  : jsstring :=
  match steps with
  | O => content
  | S steps' =>
      let nextLine := trim (nth j lines []) in
      if isPostContent nextLine && negb (isSystemMessage nextLine)
      then absorb lines (S j) steps' (content ++ [10%N] ++ nextLine)
      else content
  end.

(** The outer loop [for (i = ...; i < lines.length; i++)], with [steps]
    iterations left. *)
Fixpoint scan (lines : list jsstring) (i steps : nat) : option jsstring :=
  match steps with
  | O => None
  | S steps' =>
      let line := trim (nth i lines []) in
      if isPostContent line then
        let content :=
          absorb lines (i + 1)
                 (Nat.min (i + 5) (length lines) - (i + 1)) line in
        if (20 <? length content)%nat then Some (cleanContent content)
        else scan lines (S i) steps'
      else scan lines (S i) steps'
  end.

Definition nonblank_lines (fullText : jsstring) : list jsstring :=
  filter (fun line => (0 <? length (trim line))%nat) (split 10%N fullText).

Definition fallback (doc : handle) : option jsstring :=
  let lines := nonblank_lines (text doc) in
  scan lines 0 (length lines).

Definition extractContent (doc : handle) : option jsstring :=
  match cascade doc selectors with
  | Some content => Some content
  | None => fallback doc
  end.

(** *** extractPostType *)

(** [Object.entries(typePatterns)]: the keys are not array indices, so the
    entries come in the order the literal lists them. *)
Definition typePatterns : list (PostType * regexp) :=
  [ (photo, mkRegexp true
       (alts (L "added a new photo")
             [L "posted a photo"; seqs (L "shared ") [star dot; L "photo"]]));
    (status, mkRegexp true
       (alts (L "updated their status") [L "wrote on their timeline"]));
    (shared, mkRegexp true
       (alts (L "shared a post")
             [seqs (L "shared ") [star dot; L "link"]; L "shared a video"]));
    (video, mkRegexp true (alts (L "posted a video") [L "shared a video"]));
    (link, mkRegexp true (alts (L "shared a link") [L "posted a link"]));
    (group, mkRegexp true (seqs (L "posted in ") [star dot; L "group"]));
    (page, mkRegexp true (seqs (L "posted on ") [star dot; L "page"])) ].

Fixpoint first_type (entries : list (PostType * regexp)) (subject : jsstring)
  : PostType :=
  match entries with
  | [] => post
  | (type, pattern) :: more =>
      if test pattern subject then type else first_type more subject
  end.

Definition extractPostType (subject : jsstring) (doc : handle) : PostType :=
  first_type typePatterns subject.

(** *** extractImages, extractLinks *)

Definition truthy (v : option jsstring) : bool := negb (falsy v).

(** [v || ''] *)
Definition or_empty (v : option jsstring) : jsstring :=
  match v with
  | Some s => s
  | None => []
  end.

Definition push_image (images : list Image) (elem : element) : list Image :=
  let src := attr "src" (attribs elem) in
  let alt := or_empty (attr "alt" (attribs elem)) in
  if truthy src
     && negb (includes (lit "facebook.com/tr/") (or_empty src))
     && negb (includes (lit "pixel") (or_empty src))
  then images ++ [mkImage (or_empty src) alt]
  else images.

Definition extractImages (doc : handle) : list Image :=
  fold_left push_image (select doc [Tag "img"]) [].

Definition push_link (links : list Link) (elem : element) : list Link :=
  let href := attr "href" (attribs elem) in
  let text := trim (el_text elem) in
  if truthy href
     && negb (includes (lit "facebook.com/help") (or_empty href))
     && negb (includes (lit "unsubscribe") (or_empty href))
  then links ++ [mkLink (or_empty href) text]
  else links.

Definition extractLinks (doc : handle) : list Link :=
  fold_left push_link (select doc [Tag "a"]) [].

(** *** calculateImportance *)

(** [postData.content.length]; a TypeError when the content is [null]. *)
Definition content_length (postData : PostData) : completion nat :=
  match content postData with
  | Some c => Normal (length c)
  | None => Throw TypeError
  end.

Definition type_in (ts : list PostType) (t : PostType) : bool :=
  existsb (fun t' => String.eqb (tag t') (tag t)) ts.

Definition calculateImportance (postData : PostData) : completion Z :=
  let score := 0%Z in
  n <- content_length postData ;;
  let score := if (100 <? n)%nat then (score + 2)%Z else score in
  let score := if (300 <? n)%nat then (score + 3)%Z else score in
  let score := if type_in [photo; video] (postType postData)
               then (score + 2)%Z else score in
  let score := if String.eqb (tag (postType postData)) "shared"
               then (score + 1)%Z else score in
  let score := if (0 <? length (images postData))%nat
               then (score + 2)%Z else score in
  let score := if (0 <? length (links postData))%nat
               then (score + 1)%Z else score in
  Normal score.

(** *** parseDate and extractPostData

    [load] is [cheerio.load] and [Date_parse] the engine's [Date.parse];
    [now] is the reading of the clock that [new Date()] would take. *)

Section Host.

Variable load : jsstring -> handle.
Variable Date_parse : jsstring -> option Z.

(** [new Date(dateString)] *)
Definition Date_of_string (dateString : jsstring) : JsDate.date :=
  match Date_parse dateString with
  | Some t => JsDate.TimeClip t
  | None => None
  end.

(** [new Date()] *)
Definition Date_now (now : Z) : JsDate.date := JsDate.TimeClip now.

Definition parseDate (now : Z) (dateString : jsstring) : completion jsstring :=
  try_catch (JsDate.toISOString (Date_of_string dateString))
            (fun error => JsDate.toISOString (Date_now now)).

(** The resolved value of the promise: the record, or [null]. *)
Definition extractPostData (now : Z) (email : Email) : option PostData :=
  let attempt :=
    let doc := load (body email) in
    a <- extractAuthor (subject email) doc ;;
    let c := extractContent doc in
    let t := extractPostType (subject email) doc in
    d <- parseDate now (date email) ;;
    let postData :=
      mkPostData a c t d (extractImages doc) (extractLinks doc)
                 (mkOriginal (subject email) (from email) (date email)) in
    if falsy (author postData) || falsy (content postData)
    then Normal None
    else Normal (Some postData) in
  match try_catch attempt (fun error => Normal None) with
  | Normal outcome => outcome
  | Throw _ => None
  end.

End Host.

End FacebookParser.

(** ** BlogGenerator: the importance scorer the generator calls

    [BlogGenerator.calculateImportance] is the scorer [buildBlogPost] uses
    for the metadata of an article.  Its scores are halves of small
    integers, exact in a JavaScript number, and are rationals here. *)

Module BlogGenerator.

Import FacebookParser.

Local Open Scope Q_scope.

Definition typeScores : list (PostType * Q) :=
  [ (photo, 2); (video, 3); (shared, 1); (link, 1); (status, 1);
    (group, 2); (post, 1) ].

(** [typeScores[postType]]: the entry, or [undefined]. *)
Fixpoint lookup (t : PostType) (table : list (PostType * Q)) : option Q :=
  match table with
  | [] => None
  | (t', w) :: more =>
      if String.eqb (tag t') (tag t) then Some w else lookup t more
  end.

(** [v || 1] for a number-or-undefined [v]: zero is falsy too. *)
Definition or_one (v : option Q) : Q :=
  match v with
  | Some w => if Qeq_bool w 0 then 1 else w
  | None => 1
  end.

Definition Math_min (a b : Q) : Q := if Qle_bool a b then a else b.

Definition calculateImportance (postData : PostData) : completion Q :=
  let score := 0 in
  n <- content_length postData ;;
  let score := if (100 <? n)%nat then score + 1 else score in
  let score := if (300 <? n)%nat then score + 2 else score in
  let score := if (500 <? n)%nat then score + 3 else score in
  let score := score + or_one (lookup (postType postData) typeScores) in
  let score := score + inject_Z (Z.of_nat (length (images postData))) in
  let score :=
    score + inject_Z (Z.of_nat (length (links postData))) * (1 # 2) in
  Normal (Math_min score 10).

End BlogGenerator.

(** ** The specification's wording, for comparison with the code *)

Module Spec.

Import FacebookParser.

(** The importance formula as the specification words it: length buckets
    at more than 100, 300 and 500 characters, each adding its own weight, a
    weight per category, one per image, one half per link, clamped to 10.
    The specification fixes no weights: they are parameters. *)
Definition importance (b100 b300 b500 : Q) (weight : PostType -> Q)
    (n : nat) (t : PostType) (n_images n_links : nat) : Q :=
  let bucket (limit : nat) (w : Q) : Q := if (limit <? n)%nat then w else 0%Q in
  Qmin 10
    (bucket 100%nat b100 + bucket 300%nat b300 + bucket 500%nat b500
     + weight t
     + inject_Z (Z.of_nat n_images)
     + inject_Z (Z.of_nat n_links) * (1 # 2))%Q.

(** A line the fallback scan may absorb after its first line: plausible
    post content, and not a system message. *)
Definition absorbable (line : jsstring) : bool :=
  isPostContent line && negb (isSystemMessage line).

(** The lines absorbed after the first: of the next four at most, those
    before the first that is not absorbable. *)
Definition window (following : list jsstring) : list jsstring :=
  take_while absorbable (firstn 4 following).

(** The content gathered from a first line and what follows it. *)
Definition gathered (first : jsstring) (following : list jsstring) : jsstring :=
  join [10%N] (first :: window following).

(** The fallback scan over the trimmed non-blank lines: the first plausible
    line whose gathered content is longer than 20 characters decides. *)
Fixpoint first_accepted (lines : list jsstring) : option jsstring :=
  match lines with
  | [] => None
  | line :: following =>
      if isPostContent line && (20 <? length (gathered line following))%nat
      then Some (cleanContent (gathered line following))
      else first_accepted following
  end.

(** Whether a source attribute carries a tracking-pixel marker. *)
Definition tracking (src : jsstring) : bool :=
  includes (lit "facebook.com/tr/") src || includes (lit "pixel") src.

Definition image_of (elem : element) : Image :=
  mkImage (or_empty (attr "src" (attribs elem)))
          (or_empty (attr "alt" (attribs elem))).

(** The images as the specification words the filter: every image node
    whose source holds no tracking-pixel marker. *)
Definition images_without_marker (doc : handle) : list Image :=
  map image_of
      (filter (fun elem => negb (tracking (or_empty (attr "src" (attribs elem)))))
              (select doc [Tag "img"])).

(** The images with a non-empty source that holds no marker. *)
Definition images_with_clean_source (doc : handle) : list Image :=
  map image_of
      (filter (fun elem =>
                 truthy (attr "src" (attribs elem))
                 && negb (tracking (or_empty (attr "src" (attribs elem)))))
              (select doc [Tag "img"])).

(** The category patterns in the order the specification lists them. *)
Definition category_order : list PostType :=
  [photo; status; shared; video; link; group; page].

(** Whether the pattern of a category matches a subject. *)
Definition matches (t : PostType) (subject : jsstring) : bool :=
  existsb (fun entry => String.eqb (tag (fst entry)) (tag t)
                        && test (snd entry) subject)
          typePatterns.

(** The first category of a list whose pattern matches, else [post]. *)
Fixpoint first_match (order : list PostType) (subject : jsstring) : PostType :=
  match order with
  | [] => post
  | t :: more => if matches t subject then t else first_match more subject
  end.

(** A locator that yields nothing acceptable: no node, or a first node
    whose candidate text has at most 10 characters. *)
Definition rejected (doc : handle) (sel : selector) : Prop :=
  match select doc sel with
  | [] => True
  | first :: _ => length (candidate first) <= 10
  end.

End Spec.

(** ** Sample documents and messages *)

Module Fixtures.

Import FacebookParser.

Definition simple_eqb (a b : simple) : bool :=
  match a, b with
  | AttrEq n v, AttrEq n' v' => String.eqb n n' && String.eqb v v'
  | Class n, Class n' => String.eqb n n'
  | Tag n, Tag n' => String.eqb n n'
  | Contains t x, Contains t' x' => String.eqb t t' && String.eqb x x'
  | _, _ => false
  end.

Fixpoint selector_eqb (a b : selector) : bool :=
  match a, b with
  | [], [] => true
  | x :: a', y :: b' => simple_eqb x y && selector_eqb a' b'
  | _, _ => false
  end.

(** A document given by what each of its selectors matches. *)
Fixpoint matched (table : list (selector * list element)) (sel : selector)
  : list element :=
  match table with
  | [] => []
  | (s, elems) :: more =>
      if selector_eqb s sel then elems else matched more sel
  end.

Definition document (table : list (selector * list element)) (t : jsstring)
  : handle :=
  mkHandle (matched table) t.

(** A body of plain text: no selector matches. *)
Definition plain (t : jsstring) : handle := document [] t.

Definition lines_of (ls : list String.string) : jsstring :=
  join [10%N] (map lit ls).

(** A stand-in for [Date.parse] that knows the epoch only. *)
Definition parse_epoch_only (s : jsstring) : option Z :=
  if eqb s (lit "1970-01-01T00:00:00.000Z") then Some 0%Z else None.

(** [<div data-testid='post_message'>Just finished reading this amazing
    novel!</div>] *)
Definition novel_doc : handle :=
  document
    [ ([AttrEq "data-testid" "post_message"],
       [mkElement (lit "Just finished reading this amazing novel!")
                  [("data-testid"%string, lit "post_message")]]) ]
    (lit "Just finished reading this amazing novel!").

Definition novel_email : Email :=
  mkEmail (lit "Jane Doe posted in Book Club group")
          (lit "notification@facebookmail.com")
          (lit "<div data-testid='post_message'>Just finished reading this amazing novel!</div>")
          (lit "yesterday at noon").

Definition novel_record : PostData :=
  mkPostData (Some (lit "Jane Doe"))
             (Some (lit "Just finished reading this amazing novel!"))
             group
             (lit "2023-11-14T22:13:20.000Z")
             [] []
             (mkOriginal (subject novel_email) (from novel_email)
                         (date novel_email)).

(** [<p class='post-content'>ok</p><div class='message'>Dinner at the new
    place was great</div>]: the first locator that matches yields a text
    too short to accept. *)
Definition ok_node : element :=
  mkElement (lit "ok") [("class"%string, lit "post-content")].

Definition dinner_node : element :=
  mkElement (lit "Dinner at the new place was great")
            [("class"%string, lit "message")].

Definition short_then_long_doc : handle :=
  document
    [ ([Class "post-content"], [ok_node]);
      ([Class "message"], [dinner_node]) ]
    (lit "okDinner at the new place was great").



(** The locators after [.post-content]. *)
Definition later_selectors : list selector :=
  [ [Class "message"]; [Class "post-text"]; [Class "userContent"];
    [Contains "p" "wrote:"]; [Contains "div" "wrote:"] ].


Definition footer_line : jsstring :=
  lit "To unsubscribe from these emails, click here".

(** Two boilerplate lines, three short lines of post text, and a footer. *)
Definition short_lines_doc : handle :=
  plain (lines_of
    [ "Facebook"; "View on Facebook"; "Hello!"; "World!"; "Thanks";
      "To unsubscribe from these emails, click here" ]%string).

(** A subject with the words of three categories. *)
Definition video_of_photo_subject : jsstring :=
  lit "Ann shared a video of a photo".

Definition long_lines_doc : handle :=
  plain (lines_of
    [ "Facebook"; "View on Facebook"; "Hello everyone,"; "we moved to Lisbon";
      "and love it"; "To unsubscribe from these emails, click here" ]%string).

(** [<img alt='logo'><img src='' alt='spacer'><img src='https://x.test/cat.jpg'
    alt='cat'><img src='https://www.facebook.com/tr/?id=1'>] *)
Definition images_doc : handle :=
  document
    [ ([Tag "img"],
       [ mkElement [] [("alt"%string, lit "logo")];
         mkElement [] [("src"%string, []); ("alt"%string, lit "spacer")];
         mkElement [] [("src"%string, lit "https://x.test/cat.jpg");
                       ("alt"%string, lit "cat")];
         mkElement [] [("src"%string, lit "https://www.facebook.com/tr/?id=1")] ]) ]
    [].

Definition some_image (n : nat) : Image :=
  mkImage (lit "https://x.test/photo.jpg") (lit "photo").

Definition some_link (n : nat) : Link :=
  mkLink (lit "https://x.test/") (lit "here").

(** A record of a given content length, category and numbers of images
    and links. *)
Definition record_of (n : nat) (t : PostType) (n_images n_links : nat)
  : PostData :=
  mkPostData (Some (lit "Jane Doe")) (Some (repeat 97%N n)) t
             (lit "2023-11-14T22:13:20.000Z")
             (map some_image (seq 0 n_images))
             (map some_link (seq 0 n_links))
             (mkOriginal [] [] []).

End Fixtures.

(** ** Notions the proofs use *)

Module Notions.

Import FacebookParser.

(** A string that is empty or starts outside the class [p]. *)
Definition starts_outside (p : char -> bool) (s : jsstring) : bool :=
  match s with
  | [] => true
  | c :: _ => negb (p c)
  end.

(** A string in which every white-space character is a single blank that
    another character follows or that ends the string. *)
Fixpoint collapsed (s : jsstring) : bool :=
  match s with
  | [] => true
  | c :: t =>
      (if is_space c then (c =? 32)%N && starts_outside is_space t else true)
      && collapsed t
  end.

(** The first replacement of [cleanContent], under way: at index [i], with
    [skip] characters of a run still to pass. *)
Definition collapse_from (i skip : nat) (s : jsstring) : jsstring :=
  replace_from whitespace_run (lit " ") i skip s.

(** What author resolution came to, a thrown exception counting as
    nothing. *)
Definition resolved_author (load : jsstring -> handle) (email : Email)
  : option jsstring :=
  match extractAuthor (subject email) (load (body email)) with
  | Normal a => a
  | Throw _ => None
  end.

(** The test [extractImages] makes of an image node. *)
Definition kept (elem : element) : bool :=
  truthy (attr "src" (attribs elem))
  && negb (Spec.tracking (or_empty (attr "src" (attribs elem)))).

End Notions.

(** ** BlogGenerator: the tags of an article *)

Module BlogTags.

Import FacebookParser.

(** The tag of a category; [post] has none. *)
Definition typeTagMap : list (PostType * jsstring) :=
  [ (photo, [20889; 30495]%N);
    (status, [36817; 27841]%N);
    (shared, [12471; 12455; 12450]%N);
    (video, [21205; 30011]%N);
    (link, [12522; 12531; 12463]%N);
    (group, [12464; 12523; 12540; 12503]%N);
    (page, [12506; 12540; 12472]%N) ].

(** [typeTagMap[postType]]: the entry, or [undefined]. *)
Fixpoint type_tag (t : PostType) (table : list (PostType * jsstring))
  : option jsstring :=
  match table with
  | [] => None
  | (t', w) :: more =>
      if String.eqb (tag t') (tag t) then Some w else type_tag t more
  end.

Definition keywords : list jsstring :=
  [ [25216; 34899]%N;
    [38283; 30330]%N;
    lit "AI";
    [27231; 26800; 23398; 32722]%N;
    [12503; 12525; 12464; 12521; 12511; 12531; 12464]%N;
    lit "Web";
    [12450; 12503; 12522]%N;
    [12473; 12479; 12540; 12488; 12450; 12483; 12503]%N;
    [12499; 12472; 12493; 12473]%N ].

(** Equality of two values of the array [tags], each a string or the
    [null] of a missing author. *)
Definition value_eqb (a b : option jsstring) : bool :=
  match a, b with
  | Some x, Some y => Js.eqb x y
  | None, None => true
  | _, _ => false
  end.

(** [[...new Set(tags)]]: the values, each where it first comes. *)
Fixpoint distinct (seen tags : list (option jsstring))
  : list (option jsstring) :=
  match tags with
  | [] => []
  | v :: more =>
      if existsb (value_eqb v) seen then distinct seen more
      else v :: distinct (v :: seen) more
  end.

Section Engine.

(** [String.prototype.toLowerCase], the engine's. *)
Variable toLowerCase : jsstring -> jsstring.

Definition push_keyword (content : jsstring) (tags : list (option jsstring))
    (keyword : jsstring) : list (option jsstring) :=
  if includes (toLowerCase keyword) content then tags ++ [Some keyword]
  else tags.

Definition generateTags (postData : PostData)
  : completion (list (option jsstring)) :=
  let tags := [Some (lit "Facebook"); author postData] in
  let typeTag := type_tag (postType postData) typeTagMap in
  let tags := if truthy typeTag then tags ++ [typeTag] else tags in
  match content postData with
  | None => Throw TypeError
  | Some c =>
      let content := toLowerCase c in
      let tags := fold_left (push_keyword content) keywords tags in
      Normal (distinct [] tags)
  end.

End Engine.

End BlogTags.

(** ** FacebookBlogAutomation: what is done with a notification

    [processEmail] and [processNewEmails] of [src/index.js].  The mailbox,
    the generator, the blog service and the file system are collaborators:
    each call of one is recorded, and what it returns or throws is an input
    of the model. *)

Module Automation.

Import FacebookParser.

Record Message : Type := mkMessage { id : jsstring; email : Email }.

Section Collaborators.

Variable BlogPost : Type.

(** The calls made of the collaborators, in the order they are made. *)
Inductive call : Type :=
  | GetFacebookNotifications
  | MarkAsProcessed (message_id : jsstring)
  | GeneratePost (postData : PostData)
  | SaveDraft (blogPost : BlogPost) (postData : PostData)
  | PublishPost (blogPost : BlogPost).

(** A computation that calls collaborators: the calls it made, and the
    value it came to or the exception it threw. *)
Definition effect (A : Type) : Type := (list call * completion A)%type.

Definition ret (A : Type) (a : A) : effect A := ([], Normal a).

Definition then_ (A B : Type) (m : effect A) (k : A -> effect B) : effect B :=
  match m with
  | (calls, Normal a) => let (more, r) := k a in (calls ++ more, r)
  | (calls, Throw e) => (calls, Throw e)
  end.

(** [await collaborator.method(...)]. *)
Definition await (A : Type) (c : call) (outcome : completion A) : effect A :=
  ([c], outcome).

Variable load : jsstring -> handle.
Variable Date_parse : jsstring -> option Z.
Variable clock : Message -> Z.

(** [config.facebook.targetUsers] and [config.blog.autoPost]. *)
Variable targetUsers : list jsstring.
Variable autoPost : bool.

Variable getFacebookNotifications : completion (list Message).
Variable generatePost : PostData -> completion BlogPost.
Variable saveDraft : BlogPost -> PostData -> completion unit.
Variable publishPost : BlogPost -> completion unit.
Variable markAsProcessed : jsstring -> completion unit.

(** [targetUsers.includes(author)]: [null] equals no string. *)
Definition isTargetUser (author : option jsstring) : bool :=
  (length targetUsers =? 0)%nat
  || match author with
     | Some a => existsb (Js.eqb a) targetUsers
     | None => false
     end.

(** [postData.content.substring(0, 50)], evaluated for the log line. *)
Definition content_preview (postData : PostData) : completion jsstring :=
  match content postData with
  | Some c => Normal (firstn 50 c)
  | None => Throw TypeError
  end.

Definition processEmail (message : Message) : effect unit :=
  let postData :=
    extractPostData load Date_parse (clock message) (email message) in
  match postData with
  | None => await (MarkAsProcessed (id message)) (markAsProcessed (id message))
  | Some postData =>
      if negb (isTargetUser (author postData))
      then await (MarkAsProcessed (id message)) (markAsProcessed (id message))
      else
        then_ ([], content_preview postData) (fun _ =>
        then_ (await (GeneratePost postData) (generatePost postData))
              (fun blogPost =>
        then_ (await (SaveDraft blogPost postData) (saveDraft blogPost postData))
              (fun _ =>
        then_ (if autoPost
               then await (PublishPost blogPost) (publishPost blogPost)
               else ret tt)
              (fun _ =>
        await (MarkAsProcessed (id message)) (markAsProcessed (id message))))))
  end.

(** The loop over the notifications: an exception of [processEmail] is
    caught and logged, and the loop goes on. *)
Fixpoint processEach (emails : list Message) : list call :=
  match emails with
  | [] => []
  | message :: more => fst (processEmail message) ++ processEach more
  end.

(** [processNewEmails], from a value of [this.isRunning]: the calls made,
    and the value of [this.isRunning] at the end. *)
Definition processNewEmails (isRunning : bool) : list call * bool :=
  if isRunning then ([], true)
  else
    let calls :=
      match getFacebookNotifications with
      | Normal emails => GetFacebookNotifications :: processEach emails
      | Throw _ => [GetFacebookNotifications]
      end in
    (calls, false).

Definition is_mark (c : call) : bool :=
  match c with
  | MarkAsProcessed _ => true
  | _ => false
  end.

End Collaborators.

End Automation.

(** ** HatenaBlogService: escaping for the Atom entry *)

Module HatenaBlogService.

(** [/c/g] for one literal character. *)
Definition every (c : char) : regexp := mkRegexp false (Lit [c]).

Definition escapeXml (unsafe : jsstring) : jsstring :=
  replace_all (every 39%N) (lit "&#039;")
    (replace_all (every 34%N) (lit "&quot;")
      (replace_all (every 62%N) (lit "&gt;")
        (replace_all (every 60%N) (lit "&lt;")
          (replace_all (every 38%N) (lit "&amp;") unsafe)))).

Record EntryResponse : Type := mkEntryResponse {
  url : option jsstring;
  entry_id : option jsstring;
  success : bool
}.

Definition not_char (d : char) (c : char) : bool := negb (c =? d)%N.

(** A pattern [open([^d]+)close], for a closing text that starts with the
    character [d]. *)
Definition between_pattern (opening : jsstring) (d : char) (closing : jsstring)
  : regexp :=
  mkRegexp false (seqs (Lit opening) [Group (plus (not_char d)); Lit closing]).

(** The opening of a link element with the attributes [rel], of value
    [alternate], and [href]; character 34 is the double quote. *)
Definition link_opening : jsstring :=
  lit "<link rel=" ++ [34%N] ++ lit "alternate" ++ [34%N] ++ lit " href="
  ++ [34%N].

Definition link_pattern : regexp := between_pattern link_opening 34%N [34%N].

(** [/<id>([^<]+)<\/id>/] *)
Definition id_pattern : regexp :=
  between_pattern (lit "<id>") 60%N (lit "</id>").

(** [match ? match[1] : null] *)
Definition group_or_null (m : option mresult) : option jsstring :=
  match m with
  | Some found => m_group found
  | None => None
  end.

Definition parseEntryResponse (responseData : jsstring) : EntryResponse :=
  let urlMatch := exec link_pattern responseData in
  let idMatch := exec id_pattern responseData in
  mkEntryResponse (group_or_null urlMatch) (group_or_null idMatch) true.

End HatenaBlogService.

(** ** FileManager: the name of a draft file *)

Module FileManager.

(** The class of the nine characters [<], [>], [:], the double quote, [/],
    the backslash, [|], [?] and [*]. *)
Definition reserved (c : char) : bool :=
  one_of [60; 62; 58; 34; 47; 92; 124; 63; 42]%N c.

(** [/[...]/g] for a class of characters. *)
Definition every_of (p : char -> bool) : regexp :=
  mkRegexp false (Rep true p 1 (Some 1)).

Definition whitespace : regexp := mkRegexp false (plus is_space).

(** [String.prototype.substring(0, n)]. *)
Definition substring_to (n : nat) (s : jsstring) : jsstring := firstn n s.

Definition sanitizeFilename (filename : jsstring) : jsstring :=
  substring_to 50
    (replace_all whitespace (lit "_")
       (replace_all (every_of reserved) (lit "_") filename)).

Definition colon_or_dot (c : char) : bool := one_of [58; 46]%N c.

(** The file name [saveDraftFile] builds, from the reading [now] of the
    clock and the author of the post:
    [new Date().toISOString().replace(/[:.]/g, '-')] and the template
    [draft_${timestamp}_${this.sanitizeFilename(postData.author)}.md]. *)
Definition draft_filename (now : Z) (author : jsstring) : completion jsstring :=
  iso <- JsDate.toISOString (JsDate.TimeClip now) ;;
  let timestamp := replace_all (every_of colon_or_dot) (lit "-") iso in
  Normal (lit "draft_" ++ timestamp ++ lit "_" ++ sanitizeFilename author
          ++ lit ".md").

End FileManager.

(** ** Notions for the further properties *)

Module Derived.

Import FacebookParser.

(** The characters of a string that are not white space, in order. *)
Definition visible (s : jsstring) : jsstring :=
  filter (fun c => negb (is_space c)) s.

(** Whether every way through a pattern passes its capturing group. *)
Fixpoint captures (r : regex) : bool :=
  match r with
  | Group _ => true
  | Seq a b => captures a || captures b
  | Alt a b => captures a && captures b
  | _ => false
  end.

(** Whether the literal [w] starts at one of the indices 1 .. n-1 of [s]. *)
Definition occurs_before (w s : jsstring) (n : nat) : bool :=
  existsb (fun k => match strip_prefix false w (skipn k s) with
                    | Some _ => true
                    | None => false
                    end)
          (seq 1 (n - 1)).

(** The test [extractLinks] makes of an anchor, and the link it keeps. *)
Definition kept_link (elem : element) : bool :=
  truthy (attr "href" (attribs elem))
  && negb (includes (lit "facebook.com/help") (or_empty (attr "href" (attribs elem))))
  && negb (includes (lit "unsubscribe") (or_empty (attr "href" (attribs elem)))).

Definition link_of (elem : element) : Link :=
  mkLink (or_empty (attr "href" (attribs elem))) (trim (el_text elem)).

(** The entity [escapeXml] should write for a character. *)
Definition entity (c : char) : jsstring :=
  if (c =? 38)%N then lit "&amp;"
  else if (c =? 60)%N then lit "&lt;"
  else if (c =? 62)%N then lit "&gt;"
  else if (c =? 34)%N then lit "&quot;"
  else if (c =? 39)%N then lit "&#039;"
  else [c].

(** A character that may stand in a file name: no white space, none of
    the reserved characters. *)
Definition plain_char (c : char) : bool :=
  negb (is_space c) && negb (FileManager.reserved c).

(** Whether the literal [w] starts at one of the indices 0 .. n-1 of [s]. *)
Definition occurs_within (w s : jsstring) (n : nat) : bool :=
  existsb (fun k => match strip_prefix false w (skipn k s) with
                    | Some _ => true
                    | None => false
                    end)
          (seq 0 n).

(** Equality of two texts up to the case of their ASCII letters. *)
Definition same_ci (a b : jsstring) : bool :=
  Js.eqb (map canon a) (map canon b).

(** The phrases that make a line a system message. *)
Definition system_phrases : list String.string :=
  [ "facebook.com"; "unsubscribe"; "privacy policy"; "terms of service";
    "help center"; "view on facebook" ]%string.

(** The words a line of boilerplate opens with. *)
Definition boilerplate_openers : list String.string :=
  [ "To help keep"; "You're receiving"; "This message was sent"; "Facebook";
    "Copyright"; "Privacy"; "Terms"; "View"; "Reply"; "Like"; "Comment";
    "Share"; "Unsubscribe"; "http"; "www." ]%string.

(** The characters [toISOString] writes. *)
Definition stamp_char (c : char) : bool :=
  is_digit c || one_of [45; 43; 84; 90; 58; 46]%N c.

End Derived.

(** ** Sample collaborators and texts *)

Module Samples.

Import FacebookParser Fixtures Automation.

Definition novel_message : Message := mkMessage (lit "18c2a7") novel_email.

(** A message without any notification in it. *)
Definition blank_message : Message :=
  mkMessage (lit "18c2a8") (mkEmail [] [] [] []).

(** Collaborators that all succeed; an article is a text. *)
Definition sample_article (postData : PostData) : completion jsstring :=
  Normal (lit "# " ++ or_empty (content postData)).

Definition sample_save (blogPost : jsstring) (postData : PostData)
  : completion unit := Normal tt.

Definition sample_done (x : jsstring) : completion unit := Normal tt.

Definition sample_clock (message : Message) : Z := 1700000000000%Z.

Definition sample_process (message : Message) : effect jsstring unit :=
  processEmail (fun _ => novel_doc) parse_epoch_only sample_clock [] true
               sample_article sample_save sample_done sample_done message.

Definition sample_process_new (isRunning : bool)
  : list (call jsstring) * bool :=
  processNewEmails (fun _ => novel_doc) parse_epoch_only sample_clock [] true
                   (Normal [blank_message; novel_message])
                   sample_article sample_save sample_done sample_done
                   isRunning.

(** Lower case of the ASCII letters, which is [toLowerCase] on ASCII
    text. *)
Definition ascii_lower (s : jsstring) : jsstring :=
  map (fun c => if between 65 90 c then (c + 32)%N else c) s.

(** A record whose content names two of the keywords. *)
Definition web_record : PostData :=
  mkPostData (Some (lit "Jane Doe")) (Some (lit "Our new Web app uses AI"))
             photo (lit "2023-11-14T22:13:20.000Z") [] []
             (mkOriginal [] [] []).

(** An answer of the blog service. *)
Definition answer_before : jsstring := lit "<entry><title>Hello</title>".
Definition answer_after : jsstring := lit "<updated>2023</updated></entry>".
Definition answer_id : jsstring :=
  lit "tag:blog.hatena.ne.jp,2013:blog-jane-1-2".

End Samples.

(** ** The parser's scorer, in words *)

Module Presence.

Import FacebookParser.

Local Open Scope Z_scope.

(** What the comments of [FacebookParser.calculateImportance] announce: the
    number of characters (2 above 100, and 3 more above 300), the category
    (2 for a photo or a video, 1 for a shared post), the presence of images
    (2) and the presence of links (1), however many there are. *)
Definition importance (n : nat) (t : PostType) (n_images n_links : nat) : Z :=
  let bucket (limit : nat) (w : Z) : Z := if (limit <? n)%nat then w else 0 in
  let present (k : nat) (w : Z) : Z := match k with O => 0 | S _ => w end in
  bucket 100%nat 2 + bucket 300%nat 3
  + match t with
    | photo | video => 2
    | shared => 1
    | status | link | group | page | post => 0
    end
  + present n_images 2 + present n_links 1.

End Presence.

(** * Properties *)

Import FacebookParser Notions.

(** ** Lists and strings *)

Section StringFacts.

Variable p : char -> bool.

Lemma drop_while_suffix (s : jsstring) :
  exists d, s = d ++ drop_while p s.
Proof.
  induction s as [|c t [d IH]]; simpl.
  - exists []. reflexivity.
  - destruct (p c).
    + exists (c :: d). simpl. now rewrite <- IH.
    + exists []. reflexivity.
Qed.

Lemma drop_while_starts_outside (s : jsstring) :
  starts_outside p (drop_while p s) = true.
Proof.
  induction s as [|c t IH]; simpl; auto.
  destruct (p c) eqn:E; simpl; auto. now rewrite E.
Qed.

Lemma drop_while_fixed (s : jsstring) :
  starts_outside p s = true -> drop_while p s = s.
Proof.
  destruct s as [|c t]; simpl; auto.
  destruct (p c); simpl; auto; discriminate.
Qed.

Lemma starts_outside_prefix (a b : jsstring) :
  starts_outside p (a ++ b) = true -> starts_outside p a = true.
Proof. destruct a; simpl; auto. Qed.

(** Dropping the class from the end keeps the start outside it. *)
Lemma drop_end_starts_outside (s : jsstring) :
  starts_outside p s = true ->
  starts_outside p (rev (drop_while p (rev s))) = true.
Proof.
  intros H. destruct (drop_while_suffix (rev s)) as [d Hd].
  apply (f_equal (@rev char)) in Hd.
  rewrite rev_involutive, rev_app_distr in Hd.
  rewrite Hd in H. now apply starts_outside_prefix in H.
Qed.

End StringFacts.

Lemma trim_idempotent (s : jsstring) : trim (trim s) = trim s.
Proof.
  unfold trim.
  rewrite (drop_while_fixed is_space (rev (drop_while is_space (rev (drop_while is_space s))))).
  - rewrite rev_involutive.
    rewrite (drop_while_fixed is_space (drop_while is_space _)); auto.
    apply drop_while_starts_outside.
  - apply drop_end_starts_outside, drop_while_starts_outside.
Qed.

(** ** The sanitizer *)

Section Sanitizer.

Lemma collapsed_tail c t : collapsed (c :: t) = true -> collapsed t = true.
Proof. simpl. intros H. apply andb_true_iff in H. tauto. Qed.

Lemma collapsed_drop_while (s : jsstring) :
  collapsed s = true -> collapsed (drop_while is_space s) = true.
Proof.
  induction s as [|c t IH]; auto. intros H. simpl.
  destruct (is_space c); auto. apply IH. eapply collapsed_tail; eauto.
Qed.

Lemma collapsed_prefix (a b : jsstring) :
  collapsed (a ++ b) = true -> collapsed a = true.
Proof.
  induction a as [|c t IH]; auto. simpl.
  intros H. apply andb_true_iff in H. destruct H as [H1 H2].
  rewrite (IH H2), andb_true_r.
  destruct (is_space c); auto.
  apply andb_true_iff in H1. destruct H1 as [H1 H3].
  rewrite H1. simpl. eapply starts_outside_prefix; eauto.
Qed.

Lemma collapsed_trim (s : jsstring) :
  collapsed s = true -> collapsed (trim s) = true.
Proof.
  intros H. unfold trim.
  apply collapsed_drop_while in H.
  destruct (drop_while_suffix is_space (rev (drop_while is_space s))) as [d Hd].
  apply (f_equal (@rev char)) in Hd.
  rewrite rev_involutive, rev_app_distr in Hd.
  rewrite Hd in H. eapply collapsed_prefix; eauto.
Qed.

(** The greedy quantifier tries the longest run first. *)
Lemma rep_counts_plus_greedy (n : nat) :
  rep_counts true 1 None (S n) = S n :: rev (seq 1 n).
Proof.
  unfold rep_counts. replace (S (S n) - 1) with (S n) by lia.
  rewrite seq_S, rev_app_distr. reflexivity.
Qed.

Lemma run_len_cons (p : char -> bool) c t :
  run_len p (c :: t) = if p c then S (run_len p t) else 0.
Proof. unfold run_len. simpl. destruct (p c); reflexivity. Qed.

(** [/\s+/] at a position: the whole run of white space, if one starts
    there. *)
Lemma match_at_whitespace_run (i : nat) (s : jsstring) :
  match_at whitespace_run i s =
  match s with
  | c :: t =>
      if is_space c
      then Some (mkResult i (i + S (run_len is_space t))
                          (skipn (run_len is_space t) t) None)
      else None
  | [] => None
  end.
Proof.
  unfold match_at, whitespace_run, plus. cbn [ignoreCase source run rest].
  destruct s as [|c t].
  - reflexivity.
  - rewrite run_len_cons. destruct (is_space c).
    + rewrite rep_counts_plus_greedy. cbn [map advance pos rest cap skipn].
      now rewrite Nat.add_comm.
    + reflexivity.
Qed.

Lemma collapse_from_step (i : nat) (c : char) (t : jsstring) :
  collapse_from i 0 (c :: t) =
  if is_space c then 32%N :: collapse_from (S i) (run_len is_space t) t
  else c :: collapse_from (S i) 0 t.
Proof.
  unfold collapse_from. cbn [replace_from].
  rewrite match_at_whitespace_run.
  destruct (is_space c); auto.
  cbn [m_end]. replace (i + S (run_len is_space t) - i) with (S (run_len is_space t)) by lia.
  reflexivity.
Qed.

Lemma collapse_from_skip (i k : nat) (c : char) (t : jsstring) :
  collapse_from i (S k) (c :: t) = collapse_from (S i) k t.
Proof. reflexivity. Qed.

Lemma collapse_from_collapsed (s : jsstring) :
  forall i,
    collapsed (collapse_from i 0 s) = true
    /\ collapsed (collapse_from i (run_len is_space s) s) = true
    /\ starts_outside is_space (collapse_from i (run_len is_space s) s) = true.
Proof.
  induction s as [|c t IH]; intros i.
  - repeat split; reflexivity.
  - destruct (IH (S i)) as (IH0 & IH1 & IH2).
    rewrite run_len_cons, collapse_from_step.
    destruct (is_space c) eqn:E.
    + rewrite collapse_from_skip. repeat split; auto.
      simpl. rewrite IH2, IH1. reflexivity.
    + rewrite collapse_from_step, E. repeat split; simpl; rewrite ?E; auto.
Qed.

Lemma collapse_from_fixed (s : jsstring) :
  forall i, collapsed s = true -> collapse_from i 0 s = s.
Proof.
  induction s as [|c t IH]; intros i H.
  - reflexivity.
  - rewrite collapse_from_step. pose proof (collapsed_tail _ _ H) as Ht.
    simpl in H. destruct (is_space c) eqn:E.
    + apply andb_true_iff in H. destruct H as [H _].
      apply andb_true_iff in H. destruct H as [Hc Hs].
      apply N.eqb_eq in Hc. subst c.
      assert (run_len is_space t = 0) as ->.
      { destruct t as [|d t']; auto. rewrite run_len_cons.
        simpl in Hs. destruct (is_space d); auto; discriminate. }
      now rewrite IH.
    + now rewrite IH.
Qed.

(** [/\n\s*\n/] cannot start at a character that is not a line feed. *)
Lemma match_at_blank_lines_none (i : nat) (s : jsstring) :
  match s with [] => True | c :: _ => c <> 10%N end ->
  match_at blank_lines i s = None.
Proof.
  intros H. unfold match_at, blank_lines.
  cbn [ignoreCase source run seqs rest strip_prefix].
  destruct s as [|c t]; auto.
  unfold char_eq. destruct (N.eqb_spec 10 c) as [E|E]; auto.
  symmetry in E. contradiction.
Qed.

Lemma collapsed_no_line_feed c t :
  collapsed (c :: t) = true -> c <> 10%N.
Proof.
  simpl. intros H ->. simpl in H. discriminate.
Qed.

Lemma blank_lines_fixed (s : jsstring) :
  forall i, collapsed s = true -> replace_from blank_lines [10%N] i 0 s = s.
Proof.
  induction s as [|c t IH]; intros i H.
  - reflexivity.
  - cbn [replace_from].
    rewrite match_at_blank_lines_none by (eapply collapsed_no_line_feed; eauto).
    rewrite IH; auto. eapply collapsed_tail; eauto.
Qed.

Lemma cleanContent_collapsed (x : jsstring) :
  collapsed (cleanContent x) = true.
Proof.
  unfold cleanContent, replace_all.
  destruct (collapse_from_collapsed x 0) as (H & _).
  fold (collapse_from 0 0 x).
  rewrite blank_lines_fixed by exact H.
  now apply collapsed_trim.
Qed.

Lemma cleanContent_of_collapsed (y : jsstring) :
  collapsed y = true -> cleanContent y = trim y.
Proof.
  intros H. unfold cleanContent, replace_all.
  fold (collapse_from 0 0 y).
  rewrite collapse_from_fixed by exact H.
  now rewrite blank_lines_fixed.
Qed.

End Sanitizer.

(** C7.  The sanitizer is idempotent: sanitizing sanitized text changes
    nothing. *)
Theorem cleanContent_idempotent (x : jsstring) :
  cleanContent (cleanContent x) = cleanContent x.
Proof.
  rewrite (cleanContent_of_collapsed _ (cleanContent_collapsed x)).
  unfold cleanContent at 1 2. apply trim_idempotent.
Qed.

(** ** The pipeline: absence, and the timestamp *)

Section Pipeline.

Variable load : jsstring -> handle.
Variable Date_parse : jsstring -> option Z.

Lemma falsy_false (v : option jsstring) :
  falsy v = false <-> exists s, v = Some s /\ s <> [].
Proof.
  split.
  - destruct v as [[|c t]|]; simpl; try discriminate.
    intros _. exists (c :: t). split; [reflexivity | discriminate].
  - intros (s & -> & Hs). destruct s; [contradiction | reflexivity].
Qed.

Lemma extractPostData_cases (now : Z) (email : Email) :
  extractPostData load Date_parse now email = None
  \/ exists r,
       extractPostData load Date_parse now email = Some r
       /\ author r = resolved_author load email
       /\ content r = extractContent (load (body email))
       /\ falsy (author r) || falsy (content r) = false.
Proof.
  unfold extractPostData, resolved_author.
  destruct (extractAuthor (subject email) (load (body email))) as [a|e];
    cbn [bind try_catch]; auto.
  destruct (parseDate Date_parse now (date email)) as [d|e];
    cbn [bind try_catch]; auto.
  cbn [author content].
  destruct (falsy a || falsy (extractContent (load (body email)))) eqn:E;
    cbn [try_catch]; auto.
  right. eexists. split; [reflexivity|]. cbn [author content]. auto.
Qed.

(** C1.  When author resolution or content extraction yields nothing,
    [null] or the empty string, [extractPostData] returns [null]; a record
    it returns has a non-empty author and a non-empty content. *)
Theorem extractPostData_absent_or_complete (now : Z) (email : Email) :
  (falsy (resolved_author load email)
   || falsy (extractContent (load (body email))) = true ->
   extractPostData load Date_parse now email = None)
  /\ (forall r,
        extractPostData load Date_parse now email = Some r ->
        (exists a, author r = Some a /\ a <> [])
        /\ (exists c, content r = Some c /\ c <> [])).
Proof.
  destruct (extractPostData_cases now email) as [H | (r & H & Ha & Hc & Hf)].
  - split; [auto | intros r Hr; congruence].
  - split.
    + intros Hn. rewrite <- Ha, <- Hc in Hn. congruence.
    + intros r' Hr. assert (r' = r) as -> by congruence.
      apply orb_false_iff in Hf. destruct Hf as [Hfa Hfc].
      split; now apply falsy_false.
Qed.

Lemma TimeClip_valid (t : Z) :
  (Z.abs t <= 8640000000000000)%Z -> JsDate.TimeClip t = Some t.
Proof.
  intros H. unfold JsDate.TimeClip.
  destruct (Z.leb_spec (Z.abs t) 8640000000000000); auto. lia.
Qed.

(** C8.  [parseDate] never throws: a string that parses to a valid date is
    rendered by [toISOString], and for any other the reading of the clock
    is rendered instead. *)
Theorem parseDate_never_throws (now : Z) (dateString : jsstring) :
  (Z.abs now <= 8640000000000000)%Z ->
  parseDate Date_parse now dateString =
  Normal (match Date_of_string Date_parse dateString with
          | Some t => JsDate.render t
          | None => JsDate.render now
          end).
Proof.
  intros H. unfold parseDate, Date_now.
  destruct (Date_of_string Date_parse dateString); cbn [JsDate.toISOString try_catch].
  - reflexivity.
  - now rewrite TimeClip_valid.
Qed.

End Pipeline.

(** ** Harvesting images *)

Section Images.

Lemma push_image_kept (images : list Image) (elem : element) :
  push_image images elem =
  if kept elem then images ++ [Spec.image_of elem] else images.
Proof.
  unfold push_image, kept, Spec.tracking, Spec.image_of.
  destruct (truthy (attr "src" (attribs elem))); cbn [andb]; auto.
  rewrite negb_orb. reflexivity.
Qed.

Lemma fold_push_image (elems : list element) :
  forall images,
    fold_left push_image elems images =
    images ++ map Spec.image_of (filter kept elems).
Proof.
  induction elems as [|e more IH]; intros images; cbn [fold_left filter].
  - now rewrite app_nil_r.
  - rewrite IH, push_image_kept. destruct (kept e); auto.
    cbn [map]. now rewrite <- app_assoc.
Qed.

(** C9, as amended.  [extractImages] returns the image nodes that have a
    non-empty source without tracking-pixel marker, as url and alt pairs,
    in document order and with repetitions: an image is dropped exactly
    when its source is missing, empty or marked, and no image returned has
    an empty or a marked url. *)
Theorem extractImages_clean_sources (doc : handle) :
  extractImages doc = Spec.images_with_clean_source doc
  /\ Forall (fun image => image_url image <> []
                          /\ Spec.tracking (image_url image) = false)
            (extractImages doc).
Proof.
  assert (extractImages doc = Spec.images_with_clean_source doc) as E.
  { unfold extractImages, Spec.images_with_clean_source.
    now rewrite fold_push_image. }
  split; [exact E|]. rewrite E. unfold Spec.images_with_clean_source.
  apply Forall_map, Forall_forall. intros elem Hin.
  apply filter_In in Hin. destruct Hin as [_ Hk].
  apply andb_true_iff in Hk. destruct Hk as [Ht Hm].
  unfold Spec.image_of. cbn [image_url]. split.
  - unfold truthy in Ht. apply negb_true_iff in Ht.
    destruct (attr "src" (attribs elem)) as [[|c t]|]; cbn in *;
      congruence.
  - now apply negb_true_iff in Hm.
Qed.

(** C9, counterexample.  Of four images, one without source, one with an
    empty source, one clean and one tracking pixel, the specification's
    filter keeps three and [extractImages] one. *)
Lemma extractImages_drops_missing_source :
  length (Spec.images_without_marker Fixtures.images_doc) = 3
  /\ length (extractImages Fixtures.images_doc) = 1
  /\ extractImages Fixtures.images_doc
     <> Spec.images_without_marker Fixtures.images_doc.
Proof.
  split; [reflexivity|]. split; [reflexivity|].
  intros H. apply (f_equal (@length Image)) in H. discriminate H.
Qed.

End Images.

(** ** Importance *)

Section Importance.

Import Fixtures.

(** C4.  The parser's importance of a record with a content lies between 0
    and 10, whatever the length, the category and the numbers of images and
    links. *)
Theorem calculateImportance_range (r : PostData) (c : jsstring) :
  content r = Some c ->
  exists z, calculateImportance r = Normal z /\ (0 <= z <= 10)%Z.
Proof.
  intros Hc. unfold calculateImportance, content_length. rewrite Hc.
  cbn [bind]. eexists. split; [reflexivity|].
  destruct (postType r); cbn [type_in existsb tag String.eqb Ascii.eqb Bool.eqb orb];
    destruct (100 <? length c); destruct (300 <? length c);
    destruct (0 <? length (images r)); destruct (0 <? length (links r)); lia.
Qed.

Lemma Math_min_Qmin (q : Q) : (BlogGenerator.Math_min q 10 == Qmin 10 q)%Q.
Proof.
  unfold BlogGenerator.Math_min.
  destruct (Qle_bool q 10) eqn:E.
  - apply Qle_bool_iff in E. symmetry. now apply Q.min_r.
  - assert (10 <= q)%Q.
    { destruct (Qlt_le_dec 10 q) as [H|H]; [now apply Qlt_le_weak|].
      apply Qle_bool_iff in H. congruence. }
    symmetry. now apply Q.min_l.
Qed.

(** The weight the generator gives a category. *)
Lemma generator_weights (t : PostType) :
  BlogGenerator.or_one (BlogGenerator.lookup t BlogGenerator.typeScores) =
  match t with
  | photo => 2 | video => 3 | group => 2
  | status | shared | link | page | post => 1
  end%Q.
Proof. destruct t; reflexivity. Qed.

(** The generator's scorer is the formula of the specification, with
    weights 1, 2 and 3 for the three length buckets. *)
Lemma generator_calculateImportance_additive (r : PostData) (c : jsstring) :
  content r = Some c ->
  exists q,
    BlogGenerator.calculateImportance r = Normal q
    /\ (q == Spec.importance 1 2 3
              (fun t => BlogGenerator.or_one
                          (BlogGenerator.lookup t BlogGenerator.typeScores))
              (length c) (postType r)
              (length (images r)) (length (links r)))%Q.
Proof.
  intros Hc. unfold BlogGenerator.calculateImportance, content_length.
  rewrite Hc. cbn [bind]. eexists. split; [reflexivity|].
  rewrite Math_min_Qmin. unfold Spec.importance.
  apply Q.min_compat; [reflexivity|].
  destruct (100 <? length c); destruct (300 <? length c);
    destruct (500 <? length c); ring.
Qed.

Lemma generator_calculateImportance_range (r : PostData) (c : jsstring) :
  content r = Some c ->
  exists q,
    BlogGenerator.calculateImportance r = Normal q /\ (0 <= q <= 10)%Q.
Proof.
  intros Hc. unfold BlogGenerator.calculateImportance, content_length.
  rewrite Hc. cbn [bind]. eexists. split; [reflexivity|].
  rewrite Math_min_Qmin. split; [|apply Q.le_min_l].
  apply Q.min_glb; [discriminate|].
  rewrite generator_weights.
  assert (0 <= inject_Z (Z.of_nat (length (images r))))%Q as Hi.
  { change 0%Q with (inject_Z 0). rewrite <- Zle_Qle. lia. }
  assert (0 <= inject_Z (Z.of_nat (length (links r))) * (1 # 2))%Q as Hl.
  { apply Qmult_le_0_compat; [|discriminate].
    change 0%Q with (inject_Z 0). rewrite <- Zle_Qle. lia. }
  assert (forall a b, 0 <= a -> 0 <= b -> 0 <= a + b)%Q as Hadd.
  { intros a b Ha Hb. change 0%Q with (0 + 0)%Q. now apply Qplus_le_compat. }
  repeat apply Hadd; auto;
    destruct (100 <? length c); destruct (300 <? length c);
    destruct (500 <? length c); destruct (postType r); discriminate.
Qed.

(** What a sum below the clamp says of the formula of the
    specification. *)
Lemma Qmin_below (x q : Q) : (q < 10 -> Qmin 10 x == q -> x == q)%Q.
Proof.
  intros Hq Hx. destruct (Q.min_spec 10 x) as [[_ E]|[_ E]].
  - rewrite E in Hx. rewrite Hx in Hq. now apply Qlt_irrefl in Hq.
  - now rewrite E in Hx.
Qed.

(** C3, counterexample.  The parser's scorer is not the formula of the
    specification, whatever the weights.  It scores a short post with one
    image and with three images alike, 2, and with one link and with three
    links alike, 1, where the formula counts each image and each link; and
    it scores 400 and 600 characters alike, 5, which leaves the formula's
    bucket above 500 the weight zero. *)
Lemma parser_calculateImportance_not_additive :
  (calculateImportance (record_of 5 post 1 0) = Normal 2%Z
   /\ calculateImportance (record_of 5 post 3 0) = Normal 2%Z
   /\ forall b100 b300 b500 weight,
        ~ (Spec.importance b100 b300 b500 weight 5 post 1 0 == 2
           /\ Spec.importance b100 b300 b500 weight 5 post 3 0 == 2)%Q)
  /\ (calculateImportance (record_of 5 post 0 1) = Normal 1%Z
      /\ calculateImportance (record_of 5 post 0 3) = Normal 1%Z
      /\ forall b100 b300 b500 weight,
           ~ (Spec.importance b100 b300 b500 weight 5 post 0 1 == 1
              /\ Spec.importance b100 b300 b500 weight 5 post 0 3 == 1)%Q)
  /\ (calculateImportance (record_of 400 post 0 0) = Normal 5%Z
      /\ calculateImportance (record_of 600 post 0 0) = Normal 5%Z
      /\ forall b100 b300 b500 weight,
           (Spec.importance b100 b300 b500 weight 400 post 0 0 == 5 ->
            Spec.importance b100 b300 b500 weight 600 post 0 0 == 5 ->
            b500 == 0)%Q).
Proof.
  split; [|split].
  - split; [reflexivity|]. split; [reflexivity|].
    intros b100 b300 b500 weight [H1 H3].
    unfold Spec.importance in H1, H3. cbn [Nat.ltb Nat.leb] in H1, H3.
    set (w := weight post) in *.
    change (inject_Z (Z.of_nat 0)) with 0%Q in *.
    change (inject_Z (Z.of_nat 1)) with 1%Q in *.
    change (inject_Z (Z.of_nat 3)) with 3%Q in *.
    apply Qmin_below in H1; [|reflexivity].
    apply Qmin_below in H3; [|reflexivity].
    assert (w + 1 == 2)%Q as E1 by (rewrite <- H1; ring).
    assert (w + 3 == 2)%Q as E3 by (rewrite <- H3; ring).
    assert (1 == 3)%Q as A.
    { apply (Qplus_inj_l _ _ w). now rewrite E1, E3. }
    discriminate A.
  - split; [reflexivity|]. split; [reflexivity|].
    intros b100 b300 b500 weight [H1 H3].
    unfold Spec.importance in H1, H3. cbn [Nat.ltb Nat.leb] in H1, H3.
    set (w := weight post) in *.
    change (inject_Z (Z.of_nat 0)) with 0%Q in *.
    change (inject_Z (Z.of_nat 1)) with 1%Q in *.
    change (inject_Z (Z.of_nat 3)) with 3%Q in *.
    apply Qmin_below in H1; [|reflexivity].
    apply Qmin_below in H3; [|reflexivity].
    assert (w + (1 # 2) == 1)%Q as E1 by (rewrite <- H1; ring).
    assert (w + (3 # 2) == 1)%Q as E3 by (rewrite <- H3; ring).
    assert ((1 # 2) == (3 # 2))%Q as A.
    { apply (Qplus_inj_l _ _ w). now rewrite E1, E3. }
    discriminate A.
  - split; [vm_compute; reflexivity|]. split; [vm_compute; reflexivity|].
    intros b100 b300 b500 weight H4 H6.
    unfold Spec.importance in H4, H6.
    change (100 <? 400) with true in H4. change (300 <? 400) with true in H4.
    change (500 <? 400) with false in H4.
    change (100 <? 600) with true in H6. change (300 <? 600) with true in H6.
    change (500 <? 600) with true in H6.
    set (w := weight post) in *.
    change (inject_Z (Z.of_nat 0)) with 0%Q in *.
    apply Qmin_below in H4; [|reflexivity].
    apply Qmin_below in H6; [|reflexivity].
    assert (b100 + b300 + w == 5)%Q as E4 by (rewrite <- H4; ring).
    assert (b100 + b300 + w + b500 == 5)%Q as E6 by (rewrite <- H6; ring).
    rewrite E4 in E6.
    apply (Qplus_inj_l _ _ 5). rewrite E6. ring.
Qed.

(** C3, as the code has it.  For every record with a content, the parser's
    scorer is the sum by presence: 2 for more than 100 characters and 3 more
    for more than 300, 2 for a photo or a video and 1 for a shared post, 2
    when there is an image and 1 when there is a link, however many; the
    sum lies between 0 and 10 as it stands.  The formula of the
    specification, with the weights 1, 2 and 3 for its three buckets, one
    per image and one half per link, clamped to 10, is the scorer of the
    generator. *)
Theorem calculateImportance_by_presence (r : PostData) (c : jsstring) :
  content r = Some c ->
  calculateImportance r =
    Normal (Presence.importance (length c) (postType r)
                                (length (images r)) (length (links r)))
  /\ (0 <= Presence.importance (length c) (postType r)
                               (length (images r)) (length (links r))
      <= 10)%Z
  /\ exists q,
       BlogGenerator.calculateImportance r = Normal q
       /\ (q == Spec.importance 1 2 3
                 (fun t => BlogGenerator.or_one
                             (BlogGenerator.lookup t BlogGenerator.typeScores))
                 (length c) (postType r)
                 (length (images r)) (length (links r)))%Q.
Proof.
  intros Hc. split; [|split].
  - unfold calculateImportance, content_length. rewrite Hc. cbn [bind].
    f_equal. unfold Presence.importance.
    destruct (postType r);
      cbn [type_in existsb tag String.eqb Ascii.eqb Bool.eqb orb];
      destruct (100 <? length c); destruct (300 <? length c);
      destruct (length (images r)); destruct (length (links r));
      reflexivity.
  - unfold Presence.importance.
    destruct (postType r);
      destruct (100 <? length c); destruct (300 <? length c);
      destruct (length (images r)); destruct (length (links r)); lia.
  - exact (@generator_calculateImportance_additive r c Hc).
Qed.

End Importance.

(** ** Classifying the subject *)

Section PostTypes.

Import Fixtures.

Lemma first_match_first (subject : jsstring) (before : list PostType)
    (t : PostType) (after : list PostType) :
  (forall t', In t' before -> Spec.matches t' subject = false) ->
  Spec.matches t subject = true ->
  Spec.first_match (before ++ t :: after) subject = t.
Proof.
  intros Hb Ht. induction before as [|b more IH]; cbn [app Spec.first_match].
  - now rewrite Ht.
  - rewrite (Hb b) by now left. apply IH. intros t' Hin. apply Hb. now right.
Qed.

Lemma first_match_none (subject : jsstring) (order : list PostType) :
  (forall t, In t order -> Spec.matches t subject = false) ->
  Spec.first_match order subject = post.
Proof.
  intros H. induction order as [|t more IH]; cbn [Spec.first_match]; auto.
  rewrite (H t) by now left. apply IH. intros t' Hin. apply H. now right.
Qed.

Lemma extractPostType_in_order (subject : jsstring) (doc : handle) :
  extractPostType subject doc =
  Spec.first_match Spec.category_order subject.
Proof.
  unfold extractPostType, Spec.category_order, Spec.first_match, Spec.matches,
    typePatterns.
  cbn [first_type existsb fst snd tag String.eqb Ascii.eqb Bool.eqb andb orb].
  repeat match goal with
         | |- context [test ?p subject] =>
             destruct (test p subject); cbn [orb]; try reflexivity
         end.
Qed.

(** C2, as amended.  [extractPostType] tests the patterns in the order
    photo, status, shared, video, link, group, page and returns the
    category of the first that matches, and [post] when none does.  A
    subject that matches the shared pattern, with or without the video
    pattern, is classified shared when it matches neither the photo nor the
    status pattern. *)
Theorem extractPostType_first_match (subject : jsstring) (doc : handle) :
  map fst typePatterns = Spec.category_order
  /\ (forall before t after,
        Spec.category_order = before ++ t :: after ->
        (forall t', In t' before -> Spec.matches t' subject = false) ->
        Spec.matches t subject = true ->
        extractPostType subject doc = t)
  /\ ((forall t, In t Spec.category_order -> Spec.matches t subject = false) ->
      extractPostType subject doc = post)
  /\ (Spec.matches shared subject = true ->
      Spec.matches photo subject = false ->
      Spec.matches status subject = false ->
      extractPostType subject doc = shared).
Proof.
  split; [reflexivity|]. rewrite extractPostType_in_order. repeat split.
  - intros before t after E Hb Ht. rewrite E. now apply first_match_first.
  - apply first_match_none.
  - intros Hs Hp Hst.
    apply (first_match_first subject [photo; status] shared
                             [video; link; group; page]); auto.
    intros t' [<-|[<-|[]]]; assumption.
Qed.

(** C2, counterexample.  A subject that contains ["shared a video"] and
    matches the shared and the video patterns, and is classified photo. *)
Lemma extractPostType_shared_video_as_photo :
  includes (lit "shared a video") video_of_photo_subject = true
  /\ Spec.matches shared video_of_photo_subject = true
  /\ Spec.matches video video_of_photo_subject = true
  /\ extractPostType video_of_photo_subject (plain []) = photo
  /\ extractPostType video_of_photo_subject (plain []) <> shared.
Proof.
  repeat split; try (vm_compute; reflexivity).
  vm_compute. discriminate.
Qed.

End PostTypes.

(** ** The selector cascade *)

Section Cascade.

Lemma cascade_rejected (doc : handle) (sels : list selector) :
  Forall (Spec.rejected doc) sels -> cascade doc sels = None.
Proof.
  induction 1 as [|sel more Hr _ IH]; cbn [cascade]; auto.
  unfold Spec.rejected in Hr. destruct (select doc sel) as [|first others]; auto.
  destruct (Nat.ltb_spec 10 (length (candidate first))); auto. lia.
Qed.

Lemma cascade_app_rejected (doc : handle) (before sels : list selector) :
  Forall (Spec.rejected doc) before ->
  cascade doc (before ++ sels) = cascade doc sels.
Proof.
  induction 1 as [|sel more Hr _ IH]; cbn [app cascade]; auto.
  unfold Spec.rejected in Hr. destruct (select doc sel) as [|first others]; auto.
  destruct (Nat.ltb_spec 10 (length (candidate first))); auto. lia.
Qed.

Lemma cascade_short (doc : handle) (sel : selector) (more : list selector)
    (first : element) (others : list element) :
  select doc sel = first :: others ->
  length (candidate first) <= 10 ->
  cascade doc (sel :: more) = cascade doc more.
Proof.
  intros Hs Hl. cbn [cascade]. rewrite Hs.
  destruct (Nat.ltb_spec 10 (length (candidate first))); auto. lia.
Qed.


(** C5.  A locator whose first node yields, trimmed and without its
    prefix, a text of at most 10 characters is passed over: the cascade
    goes on with the locators after it, and the result is that of the
    fallback scan when none of them is accepted. *)
Theorem cascade_falls_through (doc : handle) (before : list selector)
    (sel : selector) (after : list selector)
    (first : element) (others : list element) :
  selectors = before ++ sel :: after ->
  Forall (Spec.rejected doc) before ->
  select doc sel = first :: others ->
  length (candidate first) <= 10 ->
  cascade doc (sel :: after) = cascade doc after
  /\ extractContent doc =
     match cascade doc after with
     | Some content => Some content
     | None => fallback doc
     end
  /\ (Forall (Spec.rejected doc) after -> extractContent doc = fallback doc).
Proof.
  intros E Hb Hs Hl.
  pose proof (@cascade_short doc sel after first others Hs Hl) as Hc.
  assert (extractContent doc =
          match cascade doc after with
          | Some content => Some content
          | None => fallback doc
          end) as Hx.
  { unfold extractContent. now rewrite E, cascade_app_rejected, Hc. }
  repeat split; auto.
  intros Ha. rewrite Hx. now rewrite cascade_rejected.
Qed.


End Cascade.

(** ** The fallback scan *)

Section Fallback.

Lemma nth_skipn_nil (A : Type) (l : list A) (j : nat) (d : A) :
  skipn j l = [] -> nth j l d = d.
Proof.
  revert j. induction l as [|x t IH]; intros [|j]; cbn; auto; discriminate.
Qed.

Lemma nth_skipn_cons (A : Type) (l : list A) (j : nat) (d x : A) (r : list A) :
  skipn j l = x :: r -> nth j l d = x /\ skipn (S j) l = r.
Proof.
  revert j. induction l as [|y t IH]; intros [|j]; cbn; try discriminate.
  - intros H. injection H as -> ->. auto.
  - intros H. apply IH in H. exact H.
Qed.

(** The inner loop appends the absorbable lines that open the [steps] lines
    from index [j] on. *)
Lemma absorb_take_while (lines : list jsstring) (steps : nat) :
  forall j content,
    absorb lines j steps content =
    content ++ concat (map (cons 10%N)
      (take_while Spec.absorbable (firstn steps (map trim (skipn j lines))))).
Proof.
  induction steps as [|k IH]; intros j content; cbn [absorb firstn].
  - cbn. now rewrite app_nil_r.
  - destruct (skipn j lines) as [|x r] eqn:E.
    + pose proof (@nth_skipn_nil _ lines j [] E) as X. rewrite X.
      cbn. now rewrite app_nil_r.
    + destruct (@nth_skipn_cons _ lines _ [] _ _ E) as [X Hr].
      rewrite X.
      cbn [map firstn take_while]. unfold Spec.absorbable at 1.
      destruct (isPostContent (trim x) && negb (isSystemMessage (trim x))).
      * rewrite IH, Hr. cbn [map concat]. now rewrite <- !app_assoc.
      * cbn. now rewrite app_nil_r.
Qed.

Lemma join_concat (l : jsstring) (ls : list jsstring) :
  join [10%N] (l :: ls) = l ++ concat (map (cons 10%N) ls).
Proof.
  revert l. induction ls as [|x r IH]; intros l.
  - cbn. now rewrite app_nil_r.
  - change (join [10%N] (l :: x :: r)) with (l ++ [10%N] ++ join [10%N] (x :: r)).
    rewrite IH. reflexivity.
Qed.

(** At most four lines follow line [i] in the window of the inner loop. *)
Lemma firstn_window (A : Type) (l : list A) (i n : nat) :
  length l = n - (i + 1) ->
  firstn (Nat.min (i + 5) n - (i + 1)) l = firstn 4 l.
Proof.
  intros H. destruct (Nat.le_gt_cases (i + 5) n).
  - f_equal. lia.
  - replace (Nat.min (i + 5) n - (i + 1)) with (length l) by lia.
    rewrite firstn_all, firstn_all2; auto. lia.
Qed.

Lemma absorb_gathered (lines : list jsstring) (i : nat) (line : jsstring) :
  absorb lines (i + 1) (Nat.min (i + 5) (length lines) - (i + 1)) line =
  Spec.gathered line (map trim (skipn (i + 1) lines)).
Proof.
  rewrite absorb_take_while. unfold Spec.gathered, Spec.window.
  rewrite join_concat, firstn_window; auto.
  now rewrite length_map, length_skipn.
Qed.

(** The outer loop, from line [i] on, decides as [Spec.first_accepted]
    does on the trimmed lines that remain. *)
Lemma scan_first_accepted (lines : list jsstring) (steps : nat) :
  forall i,
    steps = length lines - i ->
    scan lines i steps = Spec.first_accepted (map trim (skipn i lines)).
Proof.
  induction steps as [|k IH]; intros i Hi; cbn [scan].
  - rewrite skipn_all2 by lia. reflexivity.
  - destruct (skipn i lines) as [|x r] eqn:E.
    + apply (f_equal (@length jsstring)) in E. rewrite length_skipn in E.
      cbn in E. lia.
    + destruct (@nth_skipn_cons _ lines _ [] _ _ E) as [X Hr].
      rewrite X.
      cbn [map Spec.first_accepted].
      rewrite absorb_gathered. replace (i + 1) with (S i) by lia. rewrite Hr.
      rewrite IH by lia. rewrite Hr.
      destruct (isPostContent (trim x)); cbn [andb]; reflexivity.
Qed.

Lemma fallback_first_accepted (doc : handle) :
  fallback doc = Spec.first_accepted (map trim (nonblank_lines (text doc))).
Proof.
  unfold fallback. rewrite (scan_first_accepted _ 0) by lia. reflexivity.
Qed.

Lemma first_accepted_skip (before lines : list jsstring) :
  (forall b, In b before -> isPostContent b = false) ->
  Spec.first_accepted (before ++ lines) = Spec.first_accepted lines.
Proof.
  intros H. induction before as [|b more IH]; cbn [app Spec.first_accepted]; auto.
  rewrite (H b) by now left. cbn [andb]. apply IH.
  intros b' Hin. apply H. now right.
Qed.

Lemma take_while_all (A : Type) (p : A -> bool) (l : list A) :
  Forall (fun x => p x = true) (take_while p l).
Proof.
  induction l as [|x t IH]; cbn; auto. destruct (p x) eqn:E; auto.
Qed.

Lemma take_while_stops (A : Type) (p : A -> bool) (l : list A) :
  exists r, l = take_while p l ++ r
            /\ match r with [] => True | x :: _ => p x = false end.
Proof.
  induction l as [|x t (r & E & Hr)]; cbn.
  - exists []. auto.
  - destruct (p x) eqn:Ex.
    + exists r. split; auto. cbn. now rewrite <- E.
    + exists (x :: t). auto.
Qed.

Lemma take_while_length (A : Type) (p : A -> bool) (l : list A) :
  length (take_while p l) <= length l.
Proof.
  induction l as [|x t IH]; cbn; auto. destruct (p x); cbn; lia.
Qed.

(** C6, as amended.  The fallback scan starts from the first non-blank
    line that is plausible post content; it absorbs at most 4 further
    lines, each absorbable, and stops at the first that is not; the lines
    joined are accepted when longer than 20 characters, and otherwise the
    scan goes on from the next line.  With 2 boilerplate lines, 3
    meaningful lines and an unsubscribe footer, the content is the
    sanitized join of the 3 meaningful lines when that join is longer than
    20 characters. *)
Theorem fallback_scan (doc : handle) :
  (forall before line following,
     map trim (nonblank_lines (text doc)) = before ++ line :: following ->
     (forall b, In b before -> isPostContent b = false) ->
     isPostContent line = true ->
     length (Spec.window following) <= 4
     /\ Forall (fun l => Spec.absorbable l = true) (Spec.window following)
     /\ (exists r, firstn 4 following = Spec.window following ++ r
                   /\ match r with
                      | [] => True
                      | l :: _ => Spec.absorbable l = false
                      end)
     /\ (20 < length (Spec.gathered line following) ->
         fallback doc = Some (cleanContent (Spec.gathered line following)))
     /\ (length (Spec.gathered line following) <= 20 ->
         fallback doc = Spec.first_accepted following))
  /\ (forall b1 b2 m1 m2 m3 footer,
        map trim (nonblank_lines (text doc)) = [b1; b2; m1; m2; m3; footer] ->
        isPostContent b1 = false ->
        isPostContent b2 = false ->
        isPostContent m1 = true ->
        Spec.absorbable m2 = true ->
        Spec.absorbable m3 = true ->
        isSystemMessage footer = true ->
        20 < length (join [10%N] [m1; m2; m3]) ->
        cascade doc selectors = None ->
        extractContent doc = Some (cleanContent (join [10%N] [m1; m2; m3]))).
Proof.
  split.
  - intros before line following E Hb Hl.
    rewrite fallback_first_accepted, E, first_accepted_skip by exact Hb.
    cbn [Spec.first_accepted]. rewrite Hl. cbn [andb].
    split; [|split; [|split; [|split]]].
    + unfold Spec.window.
      etransitivity; [apply take_while_length|]. apply firstn_le_length.
    + apply take_while_all.
    + apply take_while_stops.
    + intros H. apply Nat.ltb_lt in H. now rewrite H.
    + intros H. destruct (Nat.ltb_spec 20 (length (Spec.gathered line following)));
        [lia | reflexivity].
  - intros b1 b2 m1 m2 m3 footer E H1 H2 Hm1 Hm2 Hm3 Hf Hlen Hc.
    unfold extractContent. rewrite Hc, fallback_first_accepted, E.
    cbn [Spec.first_accepted]. rewrite H1, H2, Hm1. cbn [andb].
    assert (Spec.gathered m1 [m2; m3; footer] = join [10%N] [m1; m2; m3]) as ->.
    { unfold Spec.gathered, Spec.window. cbn [firstn take_while].
      rewrite Hm2, Hm3. unfold Spec.absorbable. rewrite Hf, andb_false_r.
      reflexivity. }
    apply Nat.ltb_lt in Hlen. now rewrite Hlen.
Qed.

(** C6, counterexample.  Two boilerplate lines, three meaningful lines of
    six characters each and an unsubscribe footer: the three lines joined
    have 20 characters and are passed over, and the content is the
    footer. *)
Lemma fallback_returns_footer :
  map trim (nonblank_lines (text Fixtures.short_lines_doc)) =
    [lit "Facebook"; lit "View on Facebook";
     lit "Hello!"; lit "World!"; lit "Thanks"; Fixtures.footer_line]
  /\ isPostContent (lit "Facebook") = false
  /\ isPostContent (lit "View on Facebook") = false
  /\ forallb Spec.absorbable [lit "Hello!"; lit "World!"; lit "Thanks"] = true
  /\ isSystemMessage Fixtures.footer_line = true
  /\ length (join [10%N] [lit "Hello!"; lit "World!"; lit "Thanks"]) = 20
  /\ extractContent Fixtures.short_lines_doc = Some Fixtures.footer_line
  /\ extractContent Fixtures.short_lines_doc
     <> Some (cleanContent
               (join [10%N] [lit "Hello!"; lit "World!"; lit "Thanks"])).
Proof.
  repeat split; try (vm_compute; reflexivity).
  vm_compute. discriminate.
Qed.

End Fallback.

(** ** The properties at sample inputs *)

Section Samples.

Import Fixtures.

(** C1, at the book-club notification: the record returned has the author
    and the content of the message. *)
Lemma extractPostData_absent_or_complete_witness :
  extractPostData (fun _ => novel_doc) parse_epoch_only 1700000000000
                  novel_email = Some novel_record
  /\ (exists a, author novel_record = Some a /\ a <> [])
  /\ (exists c, content novel_record = Some c /\ c <> []).
Proof.
  assert (extractPostData (fun _ => novel_doc) parse_epoch_only 1700000000000
                          novel_email = Some novel_record) as H
    by (vm_compute; reflexivity).
  split; [exact H|].
  exact (proj2 (extractPostData_absent_or_complete
                  (fun _ => novel_doc) parse_epoch_only 1700000000000
                  novel_email) novel_record H).
Defined.

(** C2, at a subject that matches the shared and the video patterns
    only. *)
Lemma extractPostType_first_match_witness :
  Spec.matches shared (lit "Bob shared a video") = true
  /\ Spec.matches photo (lit "Bob shared a video") = false
  /\ Spec.matches status (lit "Bob shared a video") = false
  /\ extractPostType (lit "Bob shared a video") (plain []) = shared.
Proof.
  destruct (extractPostType_first_match (lit "Bob shared a video") (plain []))
    as (_ & _ & _ & H).
  split; [vm_compute; reflexivity|].
  split; [vm_compute; reflexivity|].
  split; [vm_compute; reflexivity|].
  apply H; vm_compute; reflexivity.
Defined.

(** C4, at a record with 2,000 characters, 10 images and 10 links. *)
Lemma calculateImportance_range_witness :
  content (record_of 2000 post 10 10) = Some (repeat 97%N 2000)
  /\ exists z,
       calculateImportance (record_of 2000 post 10 10) = Normal z
       /\ (0 <= z <= 10)%Z.
Proof.
  split; [reflexivity|].
  apply (@calculateImportance_range (record_of 2000 post 10 10)
                                    (repeat 97%N 2000)).
  reflexivity.
Defined.

(** C3, at a photo post of 400 characters with three images and two
    links: 10 for the parser, 9 for the generator. *)
Lemma calculateImportance_by_presence_witness :
  content (record_of 400 photo 3 2) = Some (repeat 97%N 400)
  /\ calculateImportance (record_of 400 photo 3 2) = Normal 10%Z
  /\ exists q,
       BlogGenerator.calculateImportance (record_of 400 photo 3 2) = Normal q
       /\ (q == 9)%Q.
Proof.
  assert (content (record_of 400 photo 3 2) = Some (repeat 97%N 400)) as Hc
    by reflexivity.
  split; [exact Hc|].
  destruct (@calculateImportance_by_presence (record_of 400 photo 3 2)
                                             (repeat 97%N 400) Hc)
    as (Hp & _ & q & Hg & Hq).
  split.
  - rewrite Hp. vm_compute. reflexivity.
  - exists q. split; [exact Hg|]. rewrite Hq. vm_compute. reflexivity.
Defined.

(** C5, at a document whose first matching locator yields ["ok"]. *)
Lemma cascade_falls_through_witness :
  length (candidate ok_node) <= 10
  /\ cascade short_then_long_doc ([Class "post-content"] :: later_selectors) =
     cascade short_then_long_doc later_selectors
  /\ extractContent short_then_long_doc =
     match cascade short_then_long_doc later_selectors with
     | Some content => Some content
     | None => fallback short_then_long_doc
     end.
Proof.
  assert (length (candidate ok_node) <= 10) as Hl by (vm_compute; lia).
  assert (Forall (Spec.rejected short_then_long_doc)
                 [[AttrEq "data-testid" "post_message"]]) as Hb
    by (repeat constructor).
  destruct (@cascade_falls_through short_then_long_doc
              [[AttrEq "data-testid" "post_message"]]
              [Class "post-content"] later_selectors
              ok_node [] eq_refl Hb eq_refl Hl) as (A & B & _).
  repeat split; assumption.
Defined.

(** C6, at a body of two boilerplate lines, three meaningful lines and an
    unsubscribe footer. *)
Lemma fallback_scan_witness :
  extractContent long_lines_doc =
  Some (cleanContent (join [10%N]
          [lit "Hello everyone,"; lit "we moved to Lisbon"; lit "and love it"])).
Proof.
  apply (proj2 (fallback_scan long_lines_doc)
               (lit "Facebook") (lit "View on Facebook")
               (lit "Hello everyone,") (lit "we moved to Lisbon")
               (lit "and love it") footer_line);
    try (vm_compute; reflexivity).
  vm_compute. lia.
Defined.

(** C8, at a string the parser rejects and at one it accepts. *)
Lemma parseDate_never_throws_witness :
  (Z.abs 1700000000000 <= 8640000000000000)%Z
  /\ parseDate parse_epoch_only 1700000000000 (lit "yesterday at noon") =
     Normal (lit "2023-11-14T22:13:20.000Z")
  /\ parseDate parse_epoch_only 1700000000000 (lit "1970-01-01T00:00:00.000Z") =
     Normal (lit "1970-01-01T00:00:00.000Z").
Proof.
  assert (Z.abs 1700000000000 <= 8640000000000000)%Z as H by (simpl; lia).
  split; [exact H|]. split.
  - rewrite (@parseDate_never_throws parse_epoch_only 1700000000000
               (lit "yesterday at noon") H).
    vm_compute. reflexivity.
  - rewrite (@parseDate_never_throws parse_epoch_only 1700000000000
               (lit "1970-01-01T00:00:00.000Z") H).
    vm_compute. reflexivity.
Defined.


End Samples.

(** * Further properties of the parser *)

Import Derived.

Unset Implicit Arguments.

Section SanitizerShape.

Lemma visible_drop_while (s : jsstring) :
  visible (drop_while is_space s) = visible s.
Proof.
  induction s as [|c t IH]; auto. cbn [drop_while].
  destruct (is_space c) eqn:E; auto.
  unfold visible in *. cbn [filter]. now rewrite E.
Qed.

Lemma visible_trim (s : jsstring) : visible (trim s) = visible s.
Proof.
  unfold trim, visible. rewrite filter_rev.
  fold (visible (drop_while is_space (rev (drop_while is_space s)))).
  rewrite visible_drop_while. unfold visible.
  rewrite filter_rev, rev_involutive.
  apply visible_drop_while.
Qed.

Lemma visible_collapse_from (s : jsstring) :
  forall i,
    visible (collapse_from i 0 s) = visible s
    /\ visible (collapse_from i (run_len is_space s) s) = visible s.
Proof.
  induction s as [|c t IH]; intros i.
  - split; reflexivity.
  - destruct (IH (S i)) as [IH0 IH1].
    rewrite run_len_cons, collapse_from_step.
    destruct (is_space c) eqn:E.
    + rewrite collapse_from_skip. unfold visible in *. cbn [filter].
      rewrite E. cbn. auto.
    + rewrite collapse_from_step, E. unfold visible in *. cbn [filter].
      rewrite E. cbn. split; now rewrite IH0.
Qed.

Lemma length_drop_while (s : jsstring) :
  length (drop_while is_space s) <= length s.
Proof.
  induction s as [|c t IH]; auto. cbn [drop_while].
  destruct (is_space c); cbn; lia.
Qed.

Lemma length_trim (s : jsstring) : length (trim s) <= length s.
Proof.
  unfold trim. rewrite length_rev.
  etransitivity; [apply length_drop_while|]. rewrite length_rev.
  apply length_drop_while.
Qed.

Lemma length_collapse_from (s : jsstring) :
  forall i k, length (collapse_from i k s) <= length s.
Proof.
  induction s as [|c t IH]; intros i k.
  - destruct k; cbn; auto.
  - destruct k as [|k].
    + rewrite collapse_from_step.
      destruct (is_space c); cbn [length]; specialize (IH (S i)).
      * specialize (IH (run_len is_space t)). lia.
      * specialize (IH 0). lia.
    + rewrite collapse_from_skip. specialize (IH (S i) k). cbn [length]. lia.
Qed.

Lemma cleanContent_as_trim (x : jsstring) :
  cleanContent x = trim (collapse_from 0 0 x).
Proof.
  unfold cleanContent, replace_all. fold (collapse_from 0 0 x).
  rewrite blank_lines_fixed; auto.
  now destruct (collapse_from_collapsed x 0).
Qed.

Lemma visible_cleanContent (x : jsstring) :
  visible (cleanContent x) = visible x.
Proof.
  rewrite cleanContent_as_trim, visible_trim.
  now destruct (visible_collapse_from x 0).
Qed.

End SanitizerShape.

(** X1.  Sanitized text has no white space but single blanks, each between
    two other characters: none at the start, none at the end, no two in a
    row, and no line feed, tab or other space character. *)
Theorem cleanContent_shape (x : jsstring) :
  collapsed (cleanContent x) = true
  /\ starts_outside is_space (cleanContent x) = true
  /\ starts_outside is_space (rev (cleanContent x)) = true.
Proof.
  split; [apply cleanContent_collapsed|].
  rewrite cleanContent_as_trim. unfold trim. split.
  - apply drop_end_starts_outside, drop_while_starts_outside.
  - rewrite rev_involutive. apply drop_while_starts_outside.
Qed.

(** X2.  The sanitizer changes white space only: the other characters of
    a text come out all, and in their order. *)
Theorem cleanContent_keeps_visible (x : jsstring) :
  visible (cleanContent x) = visible x.
Proof. apply visible_cleanContent. Qed.

(** X3.  The sanitizer never lengthens a text. *)
Theorem cleanContent_length (x : jsstring) :
  length (cleanContent x) <= length x.
Proof.
  rewrite cleanContent_as_trim.
  etransitivity; [apply length_trim | apply length_collapse_from].
Qed.

(** ** What the matcher leaves and captures *)

Section MatcherFacts.

Lemma strip_prefix_skipn (ci : bool) (w s s' : jsstring) :
  strip_prefix ci w s = Some s' -> s' = skipn (length w) s.
Proof.
  revert s. induction w as [|a w IH]; intros s; cbn [strip_prefix].
  - intros H. now injection H as <-.
  - destruct s as [|b t]; [discriminate|].
    destruct (char_eq ci a b); [|discriminate]. apply IH.
Qed.

(** A continuation of a match stands at a suffix of the text. *)
Lemma run_suffix (ci : bool) (r : regex) :
  forall st st', In st' (run ci r st) ->
                 exists k, rest st' = skipn k (rest st).
Proof.
  induction r as [| | |w|a IHa b IHb|a IHa b IHb|g p lo hi|a IHa];
    intros st st' Hin; cbn [run] in Hin.
  - destruct Hin as [<-|[]]. now exists 0.
  - destruct (pos st =? 0); [|contradiction].
    destruct Hin as [<-|[]]. now exists 0.
  - destruct (rest st) eqn:E; [|contradiction].
    destruct Hin as [<-|[]]. exists 0. now rewrite E.
  - destruct (strip_prefix ci w (rest st)) as [s'|] eqn:E; [|contradiction].
    destruct Hin as [<-|[]]. exists (length w). cbn [rest].
    eapply strip_prefix_skipn; eauto.
  - apply in_flat_map in Hin. destruct Hin as (mid & Hm & Hin).
    destruct (IHa _ _ Hm) as [k1 E1]. destruct (IHb _ _ Hin) as [k2 E2].
    exists (k2 + k1). now rewrite E2, E1, skipn_skipn.
  - apply in_app_or in Hin. destruct Hin as [Hin|Hin]; eauto.
  - apply in_map_iff in Hin. destruct Hin as (k & <- & _). now exists k.
  - apply in_map_iff in Hin. destruct Hin as (mid & <- & Hm).
    cbn [rest]. eauto.
Qed.

(** A group once captured stays captured. *)
Lemma run_keeps_cap (ci : bool) (r : regex) :
  forall st st', In st' (run ci r st) -> cap st <> None -> cap st' <> None.
Proof.
  induction r as [| | |w|a IHa b IHb|a IHa b IHb|g p lo hi|a IHa];
    intros st st' Hin Hc; cbn [run] in Hin.
  - now destruct Hin as [<-|[]].
  - destruct (pos st =? 0); [|contradiction]. now destruct Hin as [<-|[]].
  - destruct (rest st); [|contradiction]. now destruct Hin as [<-|[]].
  - destruct (strip_prefix ci w (rest st)); [|contradiction].
    now destruct Hin as [<-|[]].
  - apply in_flat_map in Hin. destruct Hin as (mid & Hm & Hin). eauto.
  - apply in_app_or in Hin. destruct Hin as [Hin|Hin]; eauto.
  - apply in_map_iff in Hin. now destruct Hin as (k & <- & _).
  - apply in_map_iff in Hin. destruct Hin as (mid & <- & _). discriminate.
Qed.

Lemma run_sets_cap (ci : bool) (r : regex) :
  captures r = true ->
  forall st st', In st' (run ci r st) -> cap st' <> None.
Proof.
  induction r as [| | |w|a IHa b IHb|a IHa b IHb|g p lo hi|a IHa];
    cbn [captures]; try discriminate; intros Hc st st' Hin; cbn [run] in Hin.
  - apply in_flat_map in Hin. destruct Hin as (mid & Hm & Hin).
    destruct (captures b) eqn:Eb.
    + eapply IHb; eauto.
    + rewrite orb_false_r in Hc. eapply run_keeps_cap; eauto.
  - apply andb_true_iff in Hc. destruct Hc as [Ha Hb].
    apply in_app_or in Hin. destruct Hin as [Hin|Hin]; eauto.
  - apply in_map_iff in Hin. destruct Hin as (mid & <- & _). discriminate.
Qed.

Lemma match_at_group (re : regexp) (i : nat) (s : jsstring) (m : mresult) :
  captures (source re) = true ->
  match_at re i s = Some m -> m_group m <> None.
Proof.
  intros Hc. unfold match_at.
  destruct (run (ignoreCase re) (source re) (mkState i s None))
    as [|st more] eqn:E; [discriminate|].
  intros H. injection H as <-. cbn [m_group].
  eapply run_sets_cap; eauto. rewrite E. now left.
Qed.

Lemma search_group (re : regexp) (s : jsstring) :
  captures (source re) = true ->
  forall i m, search re i s = Some m -> m_group m <> None.
Proof.
  intros Hc. induction s as [|c t IH]; intros i m; cbn [search].
  - destruct (match_at re i []) eqn:E; [|discriminate].
    intros H. injection H as <-. eapply match_at_group; eauto.
  - destruct (match_at re i (c :: t)) eqn:E.
    + intros H. injection H as <-. eapply match_at_group; eauto.
    + apply IH.
Qed.

Lemma match_at_after (re : regexp) (i : nat) (s : jsstring) (m : mresult) :
  match_at re i s = Some m -> exists k, m_after m = skipn k s.
Proof.
  unfold match_at.
  destruct (run (ignoreCase re) (source re) (mkState i s None))
    as [|st more] eqn:E; [discriminate|].
  intros H. injection H as <-. cbn [m_after].
  apply (run_suffix (ignoreCase re) (source re) (mkState i s None)).
  rewrite E. now left.
Qed.

(** A pattern that opens with [^] matches at the start or nowhere. *)
Lemma match_at_anchored (ci : bool) (r : regex) (i : nat) (s : jsstring) :
  match_at (mkRegexp ci (Seq Bol r)) (S i) s = None.
Proof. reflexivity. Qed.

Lemma search_anchored (ci : bool) (r : regex) (s : jsstring) :
  forall i, search (mkRegexp ci (Seq Bol r)) (S i) s = None.
Proof.
  induction s as [|c t IH]; intros i; cbn [search];
    rewrite match_at_anchored; auto.
Qed.

Lemma replace_anchored_suffix (ci : bool) (r : regex) (s : jsstring) :
  exists k, replace (mkRegexp ci (Seq Bol r)) [] s = skipn k s.
Proof.
  unfold replace, exec.
  destruct (search (mkRegexp ci (Seq Bol r)) 0 s) as [m|] eqn:E;
    [|now exists 0].
  assert (match_at (mkRegexp ci (Seq Bol r)) 0 s = Some m) as Hm.
  { destruct s as [|c t]; cbn [search] in E;
      destruct (match_at (mkRegexp ci (Seq Bol r)) 0 _) eqn:E0;
      try congruence.
    now rewrite search_anchored in E. }
  assert (m_index m = 0) as ->.
  { unfold match_at in Hm.
    destruct (run _ _ _); [discriminate|]. now injection Hm as <-. }
  destruct (match_at_after _ _ _ _ Hm) as [k ->]. now exists k.
Qed.

End MatcherFacts.

(** ** The content extracted *)

Section ContentShape.

Lemma candidate_suffix (e : element) :
  exists k, candidate e = skipn k (trim (el_text e)).
Proof.
  unfold candidate, quoted_prefix. cbn [seqs].
  destruct (replace_anchored_suffix true
              (Seq (plus_lazy dot) (Seq (L "wrote:") (star is_space)))
              (trim (el_text e))) as [k1 ->].
  destruct (replace_anchored_suffix true
              (Seq (plus_lazy dot) (Seq (L "said:") (star is_space)))
              (skipn k1 (trim (el_text e)))) as [k2 ->].
  destruct (replace_anchored_suffix true
              (Seq (plus_lazy dot) (Seq (L "posted:") (star is_space)))
              (skipn k2 (skipn k1 (trim (el_text e))))) as [k3 ->].
  rewrite !skipn_skipn. eauto.
Qed.

Lemma trim_ends_outside (s : jsstring) :
  starts_outside is_space (rev (trim s)) = true.
Proof.
  unfold trim. rewrite rev_involutive. apply drop_while_starts_outside.
Qed.

Lemma trim_starts_outside (s : jsstring) :
  starts_outside is_space (trim s) = true.
Proof.
  unfold trim. apply drop_end_starts_outside, drop_while_starts_outside.
Qed.

Lemma visible_app (a b : jsstring) : visible (a ++ b) = visible a ++ visible b.
Proof. apply filter_app. Qed.

Lemma visible_of_start (s : jsstring) :
  s <> [] -> starts_outside is_space s = true -> visible s <> [].
Proof.
  destruct s as [|c t]; [contradiction|]. cbn. intros _ H.
  apply negb_true_iff in H. rewrite H. discriminate.
Qed.

Lemma visible_of_end (s : jsstring) :
  s <> [] -> starts_outside is_space (rev s) = true -> visible s <> [].
Proof.
  intros Hs He Hv. apply (visible_of_start (rev s)); auto.
  - intros E. apply Hs. now rewrite <- (rev_involutive s), E.
  - unfold visible in *. now rewrite filter_rev, Hv.
Qed.

Lemma skipn_ends_outside (k : nat) (s : jsstring) :
  starts_outside is_space (rev s) = true ->
  starts_outside is_space (rev (skipn k s)) = true.
Proof.
  intros H. rewrite <- (firstn_skipn k s), rev_app_distr in H.
  now apply starts_outside_prefix in H.
Qed.

Lemma visible_candidate (e : element) :
  candidate e <> [] -> visible (candidate e) <> [].
Proof.
  destruct (candidate_suffix e) as [k ->]. intros H.
  apply visible_of_end; auto. apply skipn_ends_outside, trim_ends_outside.
Qed.

Lemma cascade_some (doc : handle) (sels : list selector) (c : jsstring) :
  cascade doc sels = Some c ->
  exists e, 10 < length (candidate e) /\ c = cleanContent (candidate e).
Proof.
  induction sels as [|sel more IH]; cbn [cascade]; [discriminate|].
  destruct (select doc sel) as [|first others]; auto.
  destruct (Nat.ltb_spec 10 (length (candidate first))) as [Hl|Hl]; auto.
  intros H. injection H as <-. eauto.
Qed.

Lemma first_accepted_some (lines : list jsstring) (c : jsstring) :
  Spec.first_accepted lines = Some c ->
  exists line following,
    In line lines /\ c = cleanContent (Spec.gathered line following).
Proof.
  induction lines as [|l more IH]; cbn [Spec.first_accepted]; [discriminate|].
  destruct (isPostContent l && (20 <? length (Spec.gathered l more))).
  - intros H. injection H as <-. exists l, more. split; auto. now left.
  - intros H. destruct (IH H) as (line & following & Hin & E).
    exists line, following. split; auto. now right.
Qed.

Lemma nonblank_line_visible (fullText line : jsstring) :
  In line (map trim (nonblank_lines fullText)) -> visible line <> [].
Proof.
  intros Hin. apply in_map_iff in Hin. destruct Hin as (l & <- & Hl).
  unfold nonblank_lines in Hl. apply filter_In in Hl. destruct Hl as [_ Hl].
  apply Nat.ltb_lt in Hl.
  apply visible_of_start; [|apply trim_starts_outside].
  intros E. rewrite E in Hl. cbn in Hl. lia.
Qed.

Lemma gathered_starts (line : jsstring) (following : list jsstring) :
  exists more, Spec.gathered line following = line ++ more.
Proof.
  unfold Spec.gathered. rewrite join_concat. eauto.
Qed.

Lemma cleanContent_nonempty (x : jsstring) :
  visible x <> [] -> cleanContent x <> [].
Proof.
  intros H E. apply H. rewrite <- visible_cleanContent, E. reflexivity.
Qed.

End ContentShape.

(** X4.  Stripping the prefixes of a node's text only removes from its
    start: the candidate is the trimmed text of the node from some index
    on, and it never ends in white space. *)
Theorem candidate_is_suffix (e : element) :
  (exists k, candidate e = skipn k (trim (el_text e)))
  /\ starts_outside is_space (rev (candidate e)) = true.
Proof.
  destruct (candidate_suffix e) as [k E]. split; [eauto|].
  rewrite E. apply skipn_ends_outside, trim_ends_outside.
Qed.

Lemma extractContent_sanitized (doc : handle) (c : jsstring) :
  extractContent doc = Some c ->
  exists x, visible x <> [] /\ c = cleanContent x.
Proof.
  unfold extractContent. intros H.
  destruct (cascade doc selectors) as [c'|] eqn:E.
  - injection H as <-. destruct (cascade_some _ _ _ E) as (e & Hl & ->).
    exists (candidate e). split; auto. apply visible_candidate.
    intros E0. rewrite E0 in Hl. cbn in Hl. lia.
  - rewrite fallback_first_accepted in H.
    destruct (first_accepted_some _ _ H) as (line & following & Hin & ->).
    exists (Spec.gathered line following). split; auto.
    destruct (gathered_starts line following) as [more ->].
    rewrite visible_app. intros E0. apply app_eq_nil in E0.
    destruct E0 as [E0 _]. revert E0. eapply nonblank_line_visible; eauto.
Qed.

Lemma extractContent_nonempty (doc : handle) (c : jsstring) :
  extractContent doc = Some c -> c <> [].
Proof.
  intros H. destruct (extractContent_sanitized doc c H) as (x & Hx & ->).
  now apply cleanContent_nonempty.
Qed.

(** X5.  A content that [extractContent] returns is never the empty
    string, and it is sanitized: its white space is single blanks between
    other characters. *)
Theorem extractContent_shape (doc : handle) (c : jsstring) :
  extractContent doc = Some c ->
  c <> []
  /\ collapsed c = true
  /\ starts_outside is_space c = true
  /\ starts_outside is_space (rev c) = true.
Proof.
  intros H. split; [now apply (extractContent_nonempty doc)|].
  destruct (extractContent_sanitized doc c H) as (x & _ & ->).
  split; [apply cleanContent_collapsed|].
  rewrite cleanContent_as_trim.
  split; [apply trim_starts_outside | apply trim_ends_outside].
Qed.

(** ** The author *)

Section AuthorShape.

Lemma group1_trimmed_normal (m : mresult) :
  m_group m <> None ->
  exists n, group1_trimmed m = Normal (Some n) /\ trim n = n.
Proof.
  unfold group1_trimmed. destruct (m_group m) as [g|]; [|contradiction].
  intros _. exists (trim g). split; auto. apply trim_idempotent.
Qed.

Lemma author_of_subject_normal (patterns : list regexp) (subject : jsstring) :
  forallb (fun re => captures (source re)) patterns = true ->
  author_of_subject patterns subject = Normal None
  \/ exists n, author_of_subject patterns subject = Normal (Some n)
               /\ trim n = n.
Proof.
  induction patterns as [|re more IH]; cbn [forallb author_of_subject]; auto.
  intros H. apply andb_true_iff in H. destruct H as [Hc Hm].
  destruct (exec re subject) as [m|] eqn:E; auto.
  right. apply group1_trimmed_normal. eapply search_group; eauto.
Qed.

End AuthorShape.

(** X6.  [extractAuthor] never throws: it returns a name or [null], and a
    name it returns has no white space at its start or its end. *)
Theorem extractAuthor_normal (subject : jsstring) (doc : handle) :
  exists a,
    extractAuthor subject doc = Normal a
    /\ match a with
       | Some n => trim n = n
       | None => True
       end.
Proof.
  unfold extractAuthor.
  destruct (author_of_subject_normal author_patterns subject eq_refl)
    as [E | (n & E & Hn)]; rewrite E; cbn [bind].
  - destruct (select doc _) as [|first others].
    + destruct (exec byline_pattern (text doc)) as [m|] eqn:Em.
      * destruct (group1_trimmed_normal m) as (n & En & Hn).
        { eapply search_group; eauto. reflexivity. }
        rewrite En. eauto.
      * now exists None.
    + eexists. split; [reflexivity|]. apply trim_idempotent.
  - eauto.
Qed.

(** ** The author named by the subject *)

Section AuthorOfSubject.

Lemma flat_map_first (A B : Type) (f : A -> list B) (l1 : list A) (x : A)
    (l2 : list A) :
  (forall y, In y l1 -> f y = []) ->
  flat_map f (l1 ++ x :: l2) = f x ++ flat_map f l2.
Proof.
  intros H. induction l1 as [|y l IH]; cbn [app flat_map]; auto.
  rewrite (H y) by now left. cbn [app]. apply IH.
  intros z Hz. apply H. now right.
Qed.

Lemma strip_prefix_same (w s : jsstring) :
  strip_prefix false w (w ++ s) = Some s.
Proof.
  induction w as [|a w IH]; cbn [app strip_prefix]; auto.
  unfold char_eq. now rewrite N.eqb_refl.
Qed.

Lemma run_len_app (p : char -> bool) (a b : jsstring) :
  forallb p a = true -> length a <= run_len p (a ++ b).
Proof.
  induction a as [|c t IH]; cbn [forallb app]; [cbn; lia|].
  intros H. apply andb_true_iff in H. destruct H as [Hc Ht].
  rewrite run_len_cons, Hc. cbn [length]. specialize (IH Ht). lia.
Qed.

Lemma occurs_before_none (w s : jsstring) (n k : nat) :
  occurs_before w s n = false -> 1 <= k < n ->
  strip_prefix false w (skipn k s) = None.
Proof.
  unfold occurs_before. intros H Hk.
  destruct (strip_prefix false w (skipn k s)) eqn:E; auto.
  assert (existsb (fun k => match strip_prefix false w (skipn k s) with
                            | Some _ => true
                            | None => false
                            end) (seq 1 (n - 1)) = true) as Ht.
  { apply existsb_exists. exists k. split; [apply in_seq; lia|].
    now rewrite E. }
  congruence.
Qed.

(** [/(.+?)w/] on a text that has [w] after a first part without line
    terminator, and not earlier: the group is that first part. *)
Lemma match_at_lazy_prefix (w name after : jsstring) :
  name <> [] ->
  forallb dot name = true ->
  occurs_before w (name ++ w ++ after) (length name) = false ->
  match_at (mkRegexp false (Seq (Group (plus_lazy dot)) (Lit w))) 0
           (name ++ w ++ after) =
  Some (mkResult 0 (length name + length w) after (Some name)).
Proof.
  intros Hn Hd Ho. set (s := name ++ w ++ after) in *.
  unfold match_at, plus_lazy.
  cbn [ignoreCase source run rest pos rep_counts].
  pose proof (run_len_app dot name (w ++ after) Hd) as Hlen. fold s in Hlen.
  assert (1 <= length name) as H1.
  { destruct name; [contradiction | cbn; lia]. }
  replace (S (run_len dot s) - 1) with
    ((length name - 1) + S (run_len dot s - length name)) by lia.
  rewrite seq_app. cbn [seq]. replace (1 + (length name - 1)) with (length name) by lia.
  rewrite !map_app. cbn [map]. rewrite flat_map_first.
  - cbn [advance pos rest cap run Nat.add Nat.sub].
    replace (skipn (length name) s) with (w ++ after)
      by (unfold s; now rewrite skipn_app, skipn_all, Nat.sub_diag).
    rewrite strip_prefix_same. cbn [app].
    rewrite Nat.sub_0_r.
    replace (firstn (length name) s) with name
      by (unfold s; now rewrite firstn_app, firstn_all, Nat.sub_diag,
                                firstn_O, app_nil_r).
    reflexivity.
  - intros st Hin. apply in_map_iff in Hin. destruct Hin as (st0 & <- & Hin).
    apply in_map_iff in Hin. destruct Hin as (k & <- & Hk).
    apply in_seq in Hk. cbn [run rest advance].
    rewrite (occurs_before_none w s (length name) k Ho) by lia. reflexivity.
Qed.

End AuthorOfSubject.

(** X7.  A subject that opens with a name on one line and goes on with
    [" posted in"], the words not starting earlier, names its author:
    [extractAuthor] returns the name, trimmed, whatever the document
    holds. *)
Theorem extractAuthor_of_subject (name after : jsstring) (doc : handle) :
  name <> [] ->
  forallb dot name = true ->
  occurs_before (lit " posted in") (name ++ lit " posted in" ++ after)
                (length name) = false ->
  extractAuthor (name ++ lit " posted in" ++ after) doc =
  Normal (Some (trim name)).
Proof.
  intros Hn Hd Ho. unfold extractAuthor, author_patterns.
  cbn [author_of_subject seqs]. unfold exec.
  pose proof (match_at_lazy_prefix (lit " posted in") name after Hn Hd Ho) as Hm.
  destruct (name ++ lit " posted in" ++ after) as [|c t] eqn:E.
  - destruct name; [contradiction | discriminate].
  - cbn [search]. unfold L. rewrite Hm. reflexivity.
Qed.

(** ** Harvesting links *)

Section Links.

Lemma push_link_kept (links : list Link) (elem : element) :
  push_link links elem =
  if kept_link elem then links ++ [link_of elem] else links.
Proof. reflexivity. Qed.

Lemma fold_push_link (elems : list element) :
  forall links,
    fold_left push_link elems links =
    links ++ map link_of (filter kept_link elems).
Proof.
  induction elems as [|e more IH]; intros links; cbn [fold_left filter].
  - now rewrite app_nil_r.
  - rewrite IH, push_link_kept. destruct (kept_link e); auto.
    cbn [map]. now rewrite <- app_assoc.
Qed.

End Links.

(** X8.  [extractLinks] returns the anchors that have a non-empty target
    holding neither ["facebook.com/help"] nor ["unsubscribe"], each with
    its target and its trimmed text, in document order and with
    repetitions; no link returned has an empty target or one of the two
    markers. *)
Theorem extractLinks_kept (doc : handle) :
  extractLinks doc = map link_of (filter kept_link (select doc [Tag "a"]))
  /\ Forall (fun l => link_url l <> []
                      /\ includes (lit "facebook.com/help") (link_url l) = false
                      /\ includes (lit "unsubscribe") (link_url l) = false)
            (extractLinks doc).
Proof.
  assert (extractLinks doc =
          map link_of (filter kept_link (select doc [Tag "a"]))) as E.
  { unfold extractLinks. now rewrite fold_push_link. }
  split; [exact E|]. rewrite E.
  apply Forall_map, Forall_forall. intros elem Hin.
  apply filter_In in Hin. destruct Hin as [_ Hk].
  unfold kept_link in Hk.
  apply andb_true_iff in Hk. destruct Hk as [Hk Hu].
  apply andb_true_iff in Hk. destruct Hk as [Ht Hh].
  unfold link_of. cbn [link_url]. repeat split.
  - unfold truthy in Ht. apply negb_true_iff in Ht.
    destruct (attr "href" (attribs elem)) as [[|c t]|]; cbn in *; congruence.
  - now apply negb_true_iff in Hh.
  - now apply negb_true_iff in Hu.
Qed.

(** ** Lines too short to be content *)

Section ShortLines.

Lemma run_len_all (p : char -> bool) (s : jsstring) :
  forallb p s = true -> run_len p s = length s.
Proof.
  induction s as [|c t IH]; cbn [forallb]; auto.
  intros H. apply andb_true_iff in H. destruct H as [Hc Ht].
  rewrite run_len_cons, Hc. cbn [length]. now rewrite IH.
Qed.

Lemma test_at_most_five (t : jsstring) :
  length t <= 5 -> forallb dot t = true ->
  test (mkRegexp false (seqs Bol [Rep true dot 0 (Some 5); Eol])) t = true.
Proof.
  intros Hl Hd. unfold test, exec.
  assert (match_at (mkRegexp false (seqs Bol [Rep true dot 0 (Some 5); Eol]))
                   0 t <> None) as Hm.
  { unfold match_at. cbn [ignoreCase source seqs run pos rest Nat.eqb flat_map].
    rewrite app_nil_r, (run_len_all dot t Hd). unfold rep_counts.
    rewrite Nat.min_r by lia. rewrite Nat.sub_0_r, seq_S, rev_app_distr.
    cbn [rev app map flat_map advance rest pos Nat.add].
    rewrite skipn_all. cbn [run rest app]. discriminate. }
  destruct t as [|c t']; cbn [search];
    destruct (match_at _ 0 _); try reflexivity; contradiction.
Qed.

End ShortLines.

(** X9.  A text of at most five characters on one line, the empty text
    among them, is never post content. *)
Theorem isPostContent_short (t : jsstring) :
  length t <= 5 -> forallb dot t = true -> isPostContent t = false.
Proof.
  intros Hl Hd. unfold isPostContent. apply negb_false_iff.
  apply existsb_exists.
  exists (mkRegexp false (seqs Bol [Rep true dot 0 (Some 5); Eol])).
  split; [|now apply test_at_most_five].
  unfold isPostContent_patterns. cbn [In]. tauto.
Qed.

(** * Escaping and file names *)

Section ReplaceEvery.

Lemma flat_map_compose (A B C : Type) (f : A -> list B) (g : B -> list C)
    (l : list A) :
  flat_map g (flat_map f l) = flat_map (fun x => flat_map g (f x)) l.
Proof.
  induction l as [|x t IH]; cbn [flat_map]; auto.
  now rewrite flat_map_app, IH.
Qed.

(** Replacing every [c] is a substitution, character by character. *)
Lemma replace_every (c : char) (by_ s : jsstring) :
  forall i,
    replace_from (HatenaBlogService.every c) by_ i 0 s =
    flat_map (fun x => if (c =? x)%N then by_ else [x]) s.
Proof.
  induction s as [|x t IH]; intros i; cbn [replace_from flat_map].
  - reflexivity.
  - unfold match_at, HatenaBlogService.every.
    cbn [ignoreCase source run rest strip_prefix pos cap length].
    unfold char_eq. destruct (c =? x)%N.
    + cbn [m_end pos]. replace (i + 1 - i) with 1 by lia.
      fold (HatenaBlogService.every c). now rewrite IH.
    + cbn [app]. fold (HatenaBlogService.every c). now rewrite IH.
Qed.

Lemma replace_every_of (p : char -> bool) (by_ s : jsstring) :
  forall i,
    replace_from (FileManager.every_of p) by_ i 0 s =
    flat_map (fun x => if p x then by_ else [x]) s.
Proof.
  induction s as [|x t IH]; intros i; cbn [replace_from flat_map].
  - reflexivity.
  - unfold match_at, FileManager.every_of.
    cbn [ignoreCase source run rest]. rewrite run_len_cons.
    destruct (p x).
    + unfold rep_counts. rewrite Nat.min_l by lia.
      cbn [Nat.sub seq rev app map advance pos m_end].
      replace (i + 1 - i) with 1 by lia.
      fold (FileManager.every_of p). now rewrite IH.
    + cbn [app]. fold (FileManager.every_of p). now rewrite IH.
Qed.

End ReplaceEvery.

Section EscapeXml.

Import HatenaBlogService.

Lemma escape_one (x : char) :
  flat_map (fun y => if (39 =? y)%N then lit "&#039;" else [y])
    (flat_map (fun y => if (34 =? y)%N then lit "&quot;" else [y])
      (flat_map (fun y => if (62 =? y)%N then lit "&gt;" else [y])
        (flat_map (fun y => if (60 =? y)%N then lit "&lt;" else [y])
          (flat_map (fun y => if (38 =? y)%N then lit "&amp;" else [y])
                    [x])))) = entity x.
Proof.
  unfold entity.
  destruct (N.eqb_spec x 38) as [->|H38]; [reflexivity|].
  destruct (N.eqb_spec x 60) as [->|H60]; [reflexivity|].
  destruct (N.eqb_spec x 62) as [->|H62]; [reflexivity|].
  destruct (N.eqb_spec x 34) as [->|H34]; [reflexivity|].
  destruct (N.eqb_spec x 39) as [->|H39]; [reflexivity|].
  apply not_eq_sym, N.eqb_neq in H38, H60, H62, H34, H39.
  cbn [flat_map]. rewrite H38. cbn [flat_map app]. rewrite H60.
  cbn [flat_map app]. rewrite H62. cbn [flat_map app]. rewrite H34.
  cbn [flat_map app]. rewrite H39. reflexivity.
Qed.

Lemma escapeXml_entities (s : jsstring) : escapeXml s = flat_map entity s.
Proof.
  unfold escapeXml, replace_all. rewrite !replace_every.
  induction s as [|x t IH]; [reflexivity|].
  change (x :: t) with ([x] ++ t). rewrite !flat_map_app.
  f_equal; [|exact IH].
  etransitivity; [apply escape_one|]. cbn [flat_map]. now rewrite app_nil_r.
Qed.

Lemma entity_safe (c : char) :
  Forall (fun x => one_of [60; 62; 34; 39]%N x = false) (entity c).
Proof.
  unfold entity.
  destruct (N.eqb_spec c 38); [repeat constructor|].
  destruct (N.eqb_spec c 60); [repeat constructor|].
  destruct (N.eqb_spec c 62); [repeat constructor|].
  destruct (N.eqb_spec c 34); [repeat constructor|].
  destruct (N.eqb_spec c 39); [repeat constructor|].
  constructor; [|constructor]. unfold one_of. cbn [existsb].
  repeat match goal with
         | H : c <> _ |- _ => apply N.eqb_neq in H; rewrite H; clear H
         end.
  reflexivity.
Qed.

Lemma entity_injective (x y : char) (a b : jsstring) :
  entity x ++ a = entity y ++ b -> x = y /\ a = b.
Proof.
  unfold entity.
  destruct (N.eqb_spec x 38) as [->|X38];
    [|destruct (N.eqb_spec x 60) as [->|X60];
      [|destruct (N.eqb_spec x 62) as [->|X62];
        [|destruct (N.eqb_spec x 34) as [->|X34];
          [|destruct (N.eqb_spec x 39) as [->|X39]]]]];
  (destruct (N.eqb_spec y 38) as [->|Y38];
    [|destruct (N.eqb_spec y 60) as [->|Y60];
      [|destruct (N.eqb_spec y 62) as [->|Y62];
        [|destruct (N.eqb_spec y 34) as [->|Y34];
          [|destruct (N.eqb_spec y 39) as [->|Y39]]]]]);
  cbn; intros H; try discriminate H;
  try (injection H as H; subst; auto; congruence);
  try (injection H as H; congruence).
Qed.

Lemma flat_map_entity_injective (a : jsstring) :
  forall b, flat_map entity a = flat_map entity b -> a = b.
Proof.
  induction a as [|x a IH]; intros [|y b]; cbn [flat_map]; auto.
  - unfold entity. intros H. exfalso.
    repeat destruct (_ =? _)%N; discriminate H.
  - unfold entity. intros H. exfalso.
    repeat destruct (_ =? _)%N; discriminate H.
  - intros H. apply entity_injective in H. destruct H as [-> H].
    f_equal. now apply IH.
Qed.

End EscapeXml.

(** X13.  [escapeXml] writes each character once: [&], [<], [>], the
    double and the single quote as their entities, any other character as
    it is.  The ampersands of the entities are not escaped again, and
    escaping a text in pieces or whole gives the same. *)
Theorem escapeXml_charwise (s t : jsstring) :
  HatenaBlogService.escapeXml s = flat_map entity s
  /\ HatenaBlogService.escapeXml (s ++ t) =
     HatenaBlogService.escapeXml s ++ HatenaBlogService.escapeXml t.
Proof.
  split; [apply escapeXml_entities|].
  rewrite !escapeXml_entities. apply flat_map_app.
Qed.

(** X14.  Escaped text holds no [<], no [>] and no quote. *)
Theorem escapeXml_safe (s : jsstring) :
  Forall (fun x => one_of [60; 62; 34; 39]%N x = false)
         (HatenaBlogService.escapeXml s).
Proof.
  rewrite escapeXml_entities. induction s as [|c t IH]; cbn [flat_map].
  - constructor.
  - apply Forall_app. split; [apply entity_safe | exact IH].
Qed.

(** X15.  [escapeXml] loses nothing: two texts with the same escaped form
    are the same text. *)
Theorem escapeXml_injective (a b : jsstring) :
  HatenaBlogService.escapeXml a = HatenaBlogService.escapeXml b -> a = b.
Proof.
  rewrite !escapeXml_entities. apply flat_map_entity_injective.
Qed.

Section FileNames.

Import FileManager.

Lemma replace_whitespace_step (by_ : jsstring) (i : nat) (c : char)
    (t : jsstring) :
  replace_from whitespace by_ i 0 (c :: t) =
  if is_space c
  then by_ ++ replace_from whitespace by_ (S i) (run_len is_space t) t
  else c :: replace_from whitespace by_ (S i) 0 t.
Proof.
  cbn [replace_from]. change whitespace with whitespace_run.
  rewrite match_at_whitespace_run.
  destruct (is_space c); auto.
  cbn [m_end].
  replace (i + S (run_len is_space t) - i) with (S (run_len is_space t)) by lia.
  reflexivity.
Qed.

(** What replacing the runs of white space leaves: the replacement, and
    the characters of the text that are not white space. *)
Lemma replace_whitespace_Forall (P : char -> Prop) (by_ : jsstring) :
  Forall P by_ ->
  forall s,
    Forall (fun c => is_space c = false -> P c) s ->
    forall i k, Forall P (replace_from whitespace by_ i k s).
Proof.
  intros Hby s. induction s as [|c t IH]; intros Hs i k.
  - destruct k; cbn; constructor.
  - inversion Hs as [|? ? Hc Ht]; subst. destruct k as [|k].
    + rewrite replace_whitespace_step. destruct (is_space c) eqn:E.
      * apply Forall_app. split; auto.
      * constructor; auto.
    + cbn [replace_from]. auto.
Qed.

Lemma replace_whitespace_fixed (by_ s : jsstring) :
  forallb (fun c => negb (is_space c)) s = true ->
  forall i, replace_from whitespace by_ i 0 s = s.
Proof.
  induction s as [|c t IH]; intros H i; [reflexivity|].
  cbn [forallb] in H. apply andb_true_iff in H. destruct H as [Hc Ht].
  rewrite replace_whitespace_step. apply negb_true_iff in Hc. rewrite Hc.
  now rewrite IH.
Qed.

Lemma replace_reserved_fixed (s : jsstring) :
  forallb (fun c => negb (reserved c)) s = true ->
  flat_map (fun x => if reserved x then lit "_" else [x]) s = s.
Proof.
  induction s as [|c t IH]; intros H; [reflexivity|].
  cbn [forallb] in H. apply andb_true_iff in H. destruct H as [Hc Ht].
  cbn [flat_map]. apply negb_true_iff in Hc. rewrite Hc.
  cbn [app]. now rewrite IH.
Qed.

Lemma replace_reserved_Forall (s : jsstring) :
  Forall (fun c => reserved c = false)
         (flat_map (fun x => if reserved x then lit "_" else [x]) s).
Proof.
  induction s as [|c t IH]; cbn [flat_map]; [constructor|].
  apply Forall_app. split; auto.
  destruct (reserved c) eqn:E; repeat constructor. exact E.
Qed.

Lemma Forall_firstn_of (A : Type) (P : A -> Prop) (n : nat) (l : list A) :
  Forall P l -> Forall P (firstn n l).
Proof.
  intros H. rewrite <- (firstn_skipn n l) in H.
  now apply Forall_app in H.
Qed.

Lemma forallb_Forall (p : char -> bool) (s : jsstring) :
  forallb p s = true <-> Forall (fun c => p c = true) s.
Proof.
  rewrite forallb_forall, Forall_forall. reflexivity.
Qed.

Lemma plain_char_split (s : jsstring) :
  forallb plain_char s = true ->
  forallb (fun c => negb (is_space c)) s = true
  /\ forallb (fun c => negb (reserved c)) s = true.
Proof.
  induction s as [|c t IH]; cbn [forallb]; auto.
  intros H. apply andb_true_iff in H. destruct H as [Hc Ht].
  unfold plain_char in Hc. apply andb_true_iff in Hc.
  destruct Hc as [-> ->]. destruct (IH Ht) as [-> ->]. auto.
Qed.

Lemma sanitizeFilename_plain (filename : jsstring) :
  forallb plain_char (sanitizeFilename filename) = true.
Proof.
  apply forallb_Forall. unfold sanitizeFilename, substring_to, replace_all.
  apply Forall_firstn_of. rewrite replace_every_of.
  apply replace_whitespace_Forall.
  - repeat constructor.
  - eapply Forall_impl; [|apply replace_reserved_Forall].
    cbn beta. intros c Hr Hs. unfold plain_char. now rewrite Hr, Hs.
Qed.

Lemma sanitizeFilename_fixed (filename : jsstring) :
  forallb plain_char filename = true ->
  length filename <= 50 ->
  sanitizeFilename filename = filename.
Proof.
  intros Hp Hl. destruct (plain_char_split _ Hp) as [Hs Hr].
  unfold sanitizeFilename, substring_to, replace_all.
  rewrite replace_every_of, replace_reserved_fixed by exact Hr.
  rewrite replace_whitespace_fixed by exact Hs.
  now apply firstn_all2.
Qed.

(** The characters of a time stamp. *)
Lemma digits_are_digits (w : nat) :
  forall n, Forall (fun c => is_digit c = true) (JsDate.digits w n).
Proof.
  induction w as [|w IH]; intros n; cbn [JsDate.digits]; [constructor|].
  apply Forall_app. split; [apply IH|]. constructor; [|constructor].
  pose proof (Z.mod_pos_bound n 10 eq_refl) as Hb.
  assert (n mod 10 = 0 \/ n mod 10 = 1 \/ n mod 10 = 2 \/ n mod 10 = 3
          \/ n mod 10 = 4 \/ n mod 10 = 5 \/ n mod 10 = 6 \/ n mod 10 = 7
          \/ n mod 10 = 8 \/ n mod 10 = 9)%Z as Hc by lia.
  repeat (destruct Hc as [->|Hc]; [reflexivity|]). now rewrite Hc.
Qed.

Lemma length_digits (w : nat) : forall n, length (JsDate.digits w n) = w.
Proof.
  induction w as [|w IH]; intros n; cbn [JsDate.digits]; auto.
  rewrite length_app, IH. cbn. lia.
Qed.

Lemma render_chars (t : Z) :
  Forall (fun c => stamp_char c = true) (JsDate.render t).
Proof.
  assert (forall w n, Forall (fun c => stamp_char c = true)
                             (JsDate.digits w n)) as Hd.
  { intros w n. eapply Forall_impl; [|apply digits_are_digits].
    intros c Hc. unfold stamp_char. now rewrite Hc. }
  unfold JsDate.render.
  destruct (JsDate.civil_of_days (t / JsDate.msPerDay)) as [[y m] d].
  unfold JsDate.render_year.
  destruct ((0 <=? y)%Z && (y <=? 9999)%Z); [|destruct (y <? 0)%Z];
    repeat first [apply Hd | apply Forall_app; split];
    repeat constructor.
Qed.

Lemma one_of_In (cs : list N) (c : char) : one_of cs c = true -> In c cs.
Proof.
  unfold one_of. intros H. apply existsb_exists in H.
  destruct H as (x & Hin & Hx). apply N.eqb_eq in Hx. now subst.
Qed.

Lemma length_render (t : Z) : length (JsDate.render t) <= 27.
Proof.
  unfold JsDate.render.
  destruct (JsDate.civil_of_days (t / JsDate.msPerDay)) as [[y m] d].
  rewrite !length_app, !length_digits. unfold JsDate.render_year.
  destruct ((0 <=? y)%Z && (y <=? 9999)%Z);
    [|destruct (y <? 0)%Z]; rewrite ?length_app, !length_digits; cbn; lia.
Qed.

Lemma stamp_plain (s : jsstring) :
  Forall (fun c => stamp_char c = true) s ->
  Forall (fun c => plain_char c = true)
         (flat_map (fun x => if colon_or_dot x then lit "-" else [x]) s).
Proof.
  induction 1 as [|c t Hc _ IH]; cbn [flat_map]; [constructor|].
  apply Forall_app. split; auto.
  destruct (colon_or_dot c) eqn:E; [repeat constructor|].
  constructor; [|constructor].
  unfold stamp_char in Hc. apply orb_true_iff in Hc. destruct Hc as [Hc|Hc].
  - unfold is_digit, between in Hc. apply andb_true_iff in Hc.
    destruct Hc as [H1 H2]. apply N.leb_le in H1, H2.
    assert (c = 48 \/ c = 49 \/ c = 50 \/ c = 51 \/ c = 52 \/ c = 53
            \/ c = 54 \/ c = 55 \/ c = 56 \/ c = 57)%N as Hd by lia.
    repeat (destruct Hd as [->|Hd]; [reflexivity|]). now rewrite Hd.
  - apply one_of_In in Hc. cbn [In] in Hc.
    repeat (destruct Hc as [<-|Hc]; [try reflexivity; discriminate E|]).
    contradiction.
Qed.

Lemma length_dashes (s : jsstring) :
  length (flat_map (fun x => if colon_or_dot x then lit "-" else [x]) s) =
  length s.
Proof.
  induction s as [|c t IH]; cbn [flat_map]; auto.
  rewrite length_app, IH. destruct (colon_or_dot c); reflexivity.
Qed.

End FileNames.

(** X16.  A sanitized file name has at most 50 characters, none of them
    white space or one of [<], [>], [:], the double quote, [/], the
    backslash, [|], [?], [*]. *)
Theorem sanitizeFilename_safe (filename : jsstring) :
  length (FileManager.sanitizeFilename filename) <= 50
  /\ forallb plain_char (FileManager.sanitizeFilename filename) = true.
Proof.
  split; [apply firstn_le_length | apply sanitizeFilename_plain].
Qed.

(** X17.  Sanitizing a file name twice is sanitizing it once. *)
Theorem sanitizeFilename_idempotent (filename : jsstring) :
  FileManager.sanitizeFilename (FileManager.sanitizeFilename filename) =
  FileManager.sanitizeFilename filename.
Proof.
  apply sanitizeFilename_fixed.
  - apply sanitizeFilename_plain.
  - apply firstn_le_length.
Qed.

(** X18.  Whatever the author of a post is called, the name of its draft
    file is built without error while the clock is in the range of [Date],
    has at most 87 characters, and holds no white space, no path separator
    and no other reserved character. *)
Theorem draft_filename_safe (now : Z) (author : jsstring) :
  (Z.abs now <= 8640000000000000)%Z ->
  exists name,
    FileManager.draft_filename now author = Normal name
    /\ length name <= 87
    /\ forallb plain_char name = true.
Proof.
  intros Hn. unfold FileManager.draft_filename.
  rewrite TimeClip_valid by exact Hn. cbn [JsDate.toISOString bind].
  eexists. split; [reflexivity|]. unfold replace_all.
  rewrite replace_every_of. split.
  - pose proof (length_render now) as Hr.
    assert (length (FileManager.sanitizeFilename author) <= 50) as Ha
      by apply firstn_le_length.
    rewrite !length_app, length_dashes.
    change (length (lit "draft_")) with 6.
    change (length (lit "_")) with 1.
    change (length (lit ".md")) with 3. lia.
  - apply forallb_Forall.
    repeat (apply Forall_app; split);
      try (repeat constructor; fail).
    + apply stamp_plain, render_chars.
    + apply forallb_Forall, sanitizeFilename_plain.
Qed.

(** * Processing a notification *)

Section Processing.

Import Automation.

Variable BlogPost : Type.
Variable load : jsstring -> handle.
Variable Date_parse : jsstring -> option Z.
Variable clock : Message -> Z.
Variable targetUsers : list jsstring.
Variable autoPost : bool.
Variable getFacebookNotifications : completion (list Message).
Variable generatePost : PostData -> completion BlogPost.
Variable saveDraft : BlogPost -> PostData -> completion unit.
Variable publishPost : BlogPost -> completion unit.
Variable markAsProcessed : jsstring -> completion unit.

Local Abbreviation process :=
  (processEmail load Date_parse clock targetUsers autoPost generatePost
                saveDraft publishPost markAsProcessed).

Local Abbreviation process_new :=
  (processNewEmails load Date_parse clock targetUsers autoPost
                    getFacebookNotifications generatePost saveDraft
                    publishPost markAsProcessed).

(** The ways [processEmail] can go. *)
Ltac each_way message :=
  unfold processEmail, then_, await, ret, content_preview;
  destruct (extractPostData load Date_parse (clock message) (email message))
    as [postData|];
  [ destruct (isTargetUser targetUsers (author postData)) eqn:Htarget;
    cbn [negb];
    [ destruct (content postData) as [c|];
      [ destruct (generatePost postData) as [blogPost|] eqn:Hgenerate;
        [ destruct (saveDraft blogPost postData) as [[]|] eqn:Hsave;
          [ destruct autoPost eqn:Hauto;
            [ destruct (publishPost blogPost) as [[]|] eqn:Hpublish | ];
            destruct (markAsProcessed (id message)) as [[]|] eqn:Hmark
          | ]
        | ]
      | ]
    | destruct (markAsProcessed (id message)) as [[]|] eqn:Hmark ]
  | destruct (markAsProcessed (id message)) as [[]|] eqn:Hmark ];
  cbn [fst snd app].

Lemma processEmail_ways (message : Message) :
  forallb (fun c => negb (is_mark c)) (removelast (fst (process message)))
  = true
  /\ (forall c, In c (fst (process message)) -> is_mark c = true ->
                c = MarkAsProcessed BlogPost (id message))
  /\ (snd (process message) = Normal tt ->
      exists before,
        fst (process message) =
        before ++ [MarkAsProcessed BlogPost (id message)])
  /\ (forall e, snd (process message) = Throw e ->
                markAsProcessed (id message) = Throw e
                \/ ~ In (MarkAsProcessed BlogPost (id message))
                        (fst (process message))).
Proof.
  each_way message;
    (split; [reflexivity|]);
    (split; [intros made Hin Hc; cbn [In] in Hin;
             repeat (destruct Hin as [<-|Hin]; [try reflexivity; discriminate Hc|]);
             contradiction|]);
    (split; [intros Hr; try discriminate Hr;
             first [ now exists []
                   | now eexists [_; _]
                   | now eexists [_; _; _] ]|]);
    intros thrown He; try discriminate He;
    try (left; congruence);
    right; cbn [In]; intros Hin;
    repeat (destruct Hin as [Hin|Hin]; [discriminate Hin|]); contradiction.
Qed.

(** X19.  [processEmail] marks a message as processed at most once, as
    its last call and under the message's own identifier.  When it returns
    the message has been marked; when it throws, either marking itself
    failed or the message was not marked at all. *)
Theorem processEmail_marks_last (message : Message) :
  forallb (fun c => negb (is_mark c)) (removelast (fst (process message)))
  = true
  /\ (forall c, In c (fst (process message)) -> is_mark c = true ->
                c = MarkAsProcessed BlogPost (id message))
  /\ (snd (process message) = Normal tt ->
      exists before,
        fst (process message) =
        before ++ [MarkAsProcessed BlogPost (id message)])
  /\ (forall e, snd (process message) = Throw e ->
                markAsProcessed (id message) = Throw e
                \/ ~ In (MarkAsProcessed BlogPost (id message))
                        (fst (process message))).
Proof. apply processEmail_ways. Qed.

(** X20.  An article is published only when automatic posting is on, for
    a record of a targeted author, and after the generator returned that
    article and its draft was saved. *)
Theorem publishPost_only_after_draft (message : Message) (article : BlogPost) :
  In (PublishPost article) (fst (process message)) ->
  autoPost = true
  /\ exists postData,
       extractPostData load Date_parse (clock message) (email message)
       = Some postData
       /\ isTargetUser targetUsers (author postData) = true
       /\ generatePost postData = Normal article
       /\ saveDraft article postData = Normal tt.
Proof.
  each_way message; cbn [In]; intros Hin;
    repeat (destruct Hin as [Hin|Hin]; [try discriminate Hin|]);
    try contradiction;
    injection Hin as <-; split; auto; exists postData; auto.
Qed.

Lemma processEach_In (emails : list Message) (message : Message) (c : call BlogPost) :
  In message emails -> In c (fst (process message)) ->
  In c (processEach load Date_parse clock targetUsers autoPost generatePost
                    saveDraft publishPost markAsProcessed emails).
Proof.
  induction emails as [|m more IH]; cbn [In processEach]; [contradiction|].
  intros [->|Hin] Hc; apply in_or_app; auto.
Qed.

Lemma processEmail_marked (message : Message) :
  snd (process message) = Normal tt ->
  In (MarkAsProcessed BlogPost (id message)) (fst (process message)).
Proof.
  intros H. destruct (processEmail_ways message) as (_ & _ & Hl & _).
  destruct (Hl H) as [before ->]. apply in_or_app. right. now left.
Qed.

(** X21.  A run of [processNewEmails] that finds another under way calls
    nothing and leaves the flag set; any other run ends with the flag
    cleared, whatever failed.  A message fetched whose own processing
    returns is marked as processed, whatever happens with the other
    messages of the batch. *)
Theorem processNewEmails_isolates (emails : list Message) (message : Message) :
  process_new true = ([], true)
  /\ snd (process_new false) = false
  /\ (getFacebookNotifications = Normal emails ->
      In message emails ->
      snd (process message) = Normal tt ->
      In (MarkAsProcessed BlogPost (id message)) (fst (process_new false))).
Proof.
  split; [reflexivity|]. split; [reflexivity|].
  intros Hg Hin Hr. unfold processNewEmails. rewrite Hg. cbn [fst].
  right. eapply processEach_In; eauto. now apply processEmail_marked.
Qed.

End Processing.

(** * The classifiers of lines *)

Section Classifiers.

Lemma eqb_eq (a b : jsstring) : Js.eqb a b = true -> a = b.
Proof.
  revert b. induction a as [|x a IH]; intros [|y b]; cbn [Js.eqb];
    try discriminate; auto.
  intros H. apply andb_true_iff in H. destruct H as [Hx Ha].
  apply N.eqb_eq in Hx. subst. f_equal. now apply IH.
Qed.

Lemma strip_prefix_ci (w : jsstring) :
  forall w' s, same_ci w' w = true -> strip_prefix true w (w' ++ s) = Some s.
Proof.
  unfold same_ci. induction w as [|a w IH]; intros [|b w'] s H;
    apply eqb_eq in H; cbn [map] in H; try discriminate H.
  - reflexivity.
  - injection H as Hb Hw. cbn [app strip_prefix]. unfold char_eq.
    rewrite Hb, N.eqb_refl. apply IH. rewrite Hw.
    clear. induction (map canon w) as [|x l IHl]; cbn [Js.eqb]; auto.
    now rewrite N.eqb_refl.
Qed.

(** An unanchored literal is found wherever it stands. *)
Lemma test_literal (w w' before after : jsstring) :
  same_ci w' w = true ->
  test (mkRegexp true (Lit w)) (before ++ w' ++ after) = true.
Proof.
  intros H. unfold test, exec. generalize 0 as i.
  induction before as [|c t IH]; intros i.
  - cbn [app].
    assert (match_at (mkRegexp true (Lit w)) i (w' ++ after) <> None) as Hm.
    { unfold match_at. cbn [ignoreCase source run rest].
      rewrite (strip_prefix_ci w w' after H). discriminate. }
    destruct (w' ++ after); cbn [search];
      destruct (match_at _ i _); try reflexivity; contradiction.
  - cbn [app search].
    destruct (match_at (mkRegexp true (Lit w)) i (c :: t ++ w' ++ after));
      [reflexivity | apply IH].
Qed.

Lemma run_alts_literal (w w' after : jsstring) (st : mstate) :
  same_ci w' w = true -> rest st = w' ++ after ->
  forall others first,
    In (Lit w) (first :: others) -> run true (alts first others) st <> [].
Proof.
  intros H Hr others.
  assert (run true (Lit w) st <> []) as Hw.
  { cbn [run]. rewrite Hr, (strip_prefix_ci w w' after H). discriminate. }
  induction others as [|r more IH]; intros first Hin; cbn [alts].
  - destruct Hin as [->|[]]. exact Hw.
  - cbn [run]. destruct Hin as [->|Hin].
    + intros E. apply app_eq_nil in E. destruct E as [E _]. contradiction.
    + intros E. apply app_eq_nil in E. destruct E as [_ E].
      revert E. now apply IH.
Qed.

(** An anchored alternation of literals matches a text that opens with
    one of them. *)
Lemma test_opener (first : regex) (others : list regex)
    (w w' after : jsstring) :
  same_ci w' w = true ->
  In (Lit w) (first :: others) ->
  test (mkRegexp true (Seq Bol (Group (alts first others)))) (w' ++ after)
  = true.
Proof.
  intros H Hin. unfold test, exec.
  assert (match_at (mkRegexp true (Seq Bol (Group (alts first others)))) 0
                   (w' ++ after) <> None) as Hm.
  { unfold match_at. cbn [ignoreCase source run pos Nat.eqb flat_map].
    rewrite app_nil_r.
    pose proof (run_alts_literal w w' after (mkState 0 (w' ++ after) None)
                  H eq_refl others first Hin) as Hne.
    destruct (run true (alts first others) (mkState 0 (w' ++ after) None));
      [contradiction | discriminate]. }
  destruct (w' ++ after); cbn [search];
    destruct (match_at _ 0 _); try reflexivity; contradiction.
Qed.

End Classifiers.

(** X11.  A line that holds one of the phrases ["facebook.com"],
    ["unsubscribe"], ["privacy policy"], ["terms of service"],
    ["help center"], ["view on facebook"], anywhere and in any case, is a
    system message. *)
Theorem isSystemMessage_phrase (phrase : String.string)
    (before found after : jsstring) :
  In phrase system_phrases ->
  same_ci found (lit phrase) = true ->
  isSystemMessage (before ++ found ++ after) = true.
Proof.
  intros Hin H. unfold isSystemMessage. apply existsb_exists.
  exists (mkRegexp true (L phrase)). split.
  - unfold system_phrases in Hin. unfold isSystemMessage_patterns.
    cbn [In] in Hin |- *.
    repeat (destruct Hin as [<-|Hin]; [tauto|]). contradiction.
  - now apply test_literal.
Qed.

(** X10.  A line that opens, in any case, with one of the words of
    boilerplate, from ["To help keep"] to ["Unsubscribe"], ["http"] and
    ["www."], is never post content, whatever follows. *)
Theorem isPostContent_opener (opener : String.string) (found after : jsstring) :
  In opener boilerplate_openers ->
  same_ci found (lit opener) = true ->
  isPostContent (found ++ after) = false.
Proof.
  intros Hin H. unfold isPostContent. apply negb_false_iff.
  apply existsb_exists. unfold boilerplate_openers in Hin. cbn [In] in Hin.
  assert (forall k first others w,
            nth_error isPostContent_patterns k =
              Some (mkRegexp true (Seq Bol (Group (alts first others)))) ->
            In (Lit w) (first :: others) ->
            same_ci found w = true ->
            exists x, In x isPostContent_patterns
                      /\ test x (found ++ after) = true) as Hk.
  { intros k first others w Hn Hw Hs. eexists. split.
    - eapply nth_error_In. exact Hn.
    - now apply (test_opener first others w found after). }
  do 7 (destruct Hin as [<-|Hin];
        [refine (Hk 0 _ _ _ eq_refl _ H); unfold L; cbn [In]; tauto|]).
  do 6 (destruct Hin as [<-|Hin];
        [refine (Hk 1 _ _ _ eq_refl _ H); unfold L; cbn [In]; tauto|]).
  do 2 (destruct Hin as [<-|Hin];
        [refine (Hk 2 _ _ _ eq_refl _ H); unfold L; cbn [In]; tauto|]).
  contradiction.
Qed.

(** * The generator: importance and tags *)

Section Generator.

(** X23.  The generator's importance of a record with a content lies
    between 1 and 10: every category weighs at least 1, [page], which the
    table leaves out, as much as [post]. *)
Theorem generator_importance_range (r : PostData) (c : jsstring) :
  content r = Some c ->
  exists q,
    BlogGenerator.calculateImportance r = Normal q /\ (1 <= q <= 10)%Q.
Proof.
  intros Hc. unfold BlogGenerator.calculateImportance, content_length.
  rewrite Hc. cbn [bind]. eexists. split; [reflexivity|].
  rewrite Math_min_Qmin. split; [|apply Q.le_min_l].
  apply Q.min_glb; [discriminate|].
  rewrite generator_weights.
  assert (0 <= inject_Z (Z.of_nat (length (images r))))%Q as Hi.
  { change 0%Q with (inject_Z 0). rewrite <- Zle_Qle. lia. }
  assert (0 <= inject_Z (Z.of_nat (length (links r))) * (1 # 2))%Q as Hl.
  { apply Qmult_le_0_compat; [|discriminate].
    change 0%Q with (inject_Z 0). rewrite <- Zle_Qle. lia. }
  assert (forall a b, 1 <= a -> 0 <= b -> 1 <= a + b)%Q as Hadd.
  { intros a b Ha Hb. change 1%Q with (1 + 0)%Q at 1.
    now apply Qplus_le_compat. }
  apply Hadd; auto. apply Hadd; auto.
  destruct (100 <? length c); destruct (300 <? length c);
    destruct (500 <? length c); destruct (postType r); discriminate.
Qed.

Variable toLowerCase : jsstring -> jsstring.

Import BlogTags.

Lemma value_eqb_eq (a b : option jsstring) :
  value_eqb a b = true <-> a = b.
Proof.
  destruct a as [x|], b as [y|]; cbn [value_eqb]; split; intros H;
    try discriminate; auto.
  - f_equal. now apply eqb_eq.
  - injection H as ->. induction y as [|c t IH]; cbn [Js.eqb]; auto.
    now rewrite N.eqb_refl.
Qed.

Lemma seen_In (v : option jsstring) (seen : list (option jsstring)) :
  existsb (value_eqb v) seen = true <-> In v seen.
Proof.
  rewrite existsb_exists. split.
  - intros (x & Hin & Hx). apply value_eqb_eq in Hx. now subst.
  - intros Hin. exists v. split; auto. now apply value_eqb_eq.
Qed.

Lemma distinct_In (tags : list (option jsstring)) :
  forall seen v,
    In v (distinct seen tags) <-> In v tags /\ ~ In v seen.
Proof.
  induction tags as [|x more IH]; intros seen v; cbn [distinct In].
  - tauto.
  - destruct (existsb (value_eqb x) seen) eqn:E.
    + apply seen_In in E. rewrite IH. split.
      * tauto.
      * intros [[->|H] Hn]; [contradiction | tauto].
    + assert (~ In x seen) as Hx.
      { intros Hin. apply seen_In in Hin. congruence. }
      cbn [In]. rewrite IH. cbn [In]. split.
      * intros [->|[H Hn]]; [tauto|]. split; [tauto|]. tauto.
      * intros [[->|H] Hn]; [tauto|].
        destruct (value_eqb x v) eqn:Ev.
        -- apply value_eqb_eq in Ev. tauto.
        -- right. split; auto. intros [->|Hs]; [|contradiction].
           assert (value_eqb v v = true) by now apply value_eqb_eq.
           congruence.
Qed.

Lemma distinct_NoDup (tags : list (option jsstring)) :
  forall seen, NoDup (distinct seen tags).
Proof.
  induction tags as [|x more IH]; intros seen; cbn [distinct].
  - constructor.
  - destruct (existsb (value_eqb x) seen); auto.
    constructor; auto. rewrite distinct_In. cbn [In]. tauto.
Qed.

Lemma distinct_length (tags : list (option jsstring)) :
  forall seen, length (distinct seen tags) <= length tags.
Proof.
  induction tags as [|x more IH]; intros seen; cbn [distinct length]; auto.
  destruct (existsb (value_eqb x) seen); cbn [length].
  - specialize (IH seen). lia.
  - specialize (IH (x :: seen)). lia.
Qed.

Lemma fold_push_keyword (content : jsstring) (ks : list jsstring) :
  forall tags,
    exists more,
      fold_left (push_keyword toLowerCase content) ks tags = tags ++ more
      /\ length more <= length ks.
Proof.
  induction ks as [|k ks IH]; intros tags; cbn [fold_left].
  - exists []. now rewrite app_nil_r.
  - destruct (IH (push_keyword toLowerCase content tags k)) as (more & E & Hl).
    rewrite E. unfold push_keyword.
    destruct (includes (toLowerCase k) content).
    + exists (Some k :: more). rewrite <- app_assoc. cbn [app length].
      split; auto. lia.
    + exists more. cbn [length]. split; auto.
Qed.

(** X24.  The tags of an article are distinct; the first is ["Facebook"],
    the author is among them, and they are 12 at most. *)
Theorem generateTags_distinct (r : PostData) (c : jsstring) :
  content r = Some c ->
  exists tags,
    generateTags toLowerCase r = Normal tags
    /\ NoDup tags
    /\ hd_error tags = Some (Some (lit "Facebook"))
    /\ In (author r) tags
    /\ length tags <= 12.
Proof.
  intros Hc. unfold generateTags. rewrite Hc.
  eexists. split; [reflexivity|].
  split; [apply distinct_NoDup|].
  set (base := if truthy (type_tag (postType r) typeTagMap)
               then [Some (lit "Facebook"); author r]
                    ++ [type_tag (postType r) typeTagMap]
               else [Some (lit "Facebook"); author r]).
  assert (exists rest, base = Some (lit "Facebook") :: author r :: rest
                       /\ length rest <= 1) as (rest & Hb & Hr).
  { unfold base. destruct (truthy _).
    - exists [type_tag (postType r) typeTagMap]. auto.
    - exists []. auto. }
  destruct (fold_push_keyword (toLowerCase c) keywords base)
    as (more & E & Hm).
  rewrite E, Hb. split; [reflexivity|]. split.
  - apply distinct_In. cbn [app In]. tauto.
  - etransitivity; [apply distinct_length|].
    cbn [app length]. rewrite length_app.
    change (length keywords) with 9 in Hm. lia.
Qed.

End Generator.

(** * The answer of the blog service *)

Section EntryResponses.

Import HatenaBlogService.

Lemma firstn_run (p : char -> bool) (s : jsstring) :
  forall k, k <= run_len p s -> forallb p (firstn k s) = true.
Proof.
  induction s as [|c t IH]; intros [|k] Hk; cbn [firstn forallb]; auto.
  rewrite run_len_cons in Hk. destruct (p c); [|lia].
  cbn [andb]. apply IH. lia.
Qed.

Lemma rep_counts_plus_range (n k : nat) :
  In k (rep_counts true 1 None n) -> 1 <= k <= n.
Proof.
  unfold rep_counts. rewrite <- in_rev, in_seq. lia.
Qed.

(** What the group of [open([^d]+)close] holds. *)
Lemma between_pattern_group (opening closing : jsstring) (d : char)
    (i : nat) (s : jsstring) (m : mresult) :
  match_at (between_pattern opening d closing) i s = Some m ->
  exists x, m_group m = Some x /\ x <> [] /\ forallb (not_char d) x = true.
Proof.
  unfold match_at, between_pattern.
  cbn [ignoreCase source seqs run].
  destruct (flat_map _ _) as [|st more] eqn:E; [discriminate|].
  intros H. injection H as <-. cbn [m_group].
  assert (In st (st :: more)) as Hin by now left.
  rewrite <- E in Hin. clear E.
  apply in_flat_map in Hin. destruct Hin as (st1 & H1 & Hin).
  apply in_flat_map in Hin. destruct Hin as (st2 & H2 & Hin).
  apply in_map_iff in H2. destruct H2 as (st3 & <- & H3).
  apply in_map_iff in H3. destruct H3 as (k & <- & Hk).
  apply rep_counts_plus_range in Hk.
  cbn [run rest cap pos advance] in Hin.
  destruct (strip_prefix false closing _); [|contradiction].
  destruct Hin as [<-|[]]. cbn [cap].
  replace (pos st1 + k - pos st1) with k by lia.
  exists (firstn k (rest st1)). split; auto. split.
  - destruct (rest st1); [cbn in Hk; lia|].
    destruct k; [lia | discriminate].
  - apply firstn_run. lia.
Qed.

Lemma search_between_group (opening closing : jsstring) (d : char)
    (s : jsstring) :
  forall i m,
    search (between_pattern opening d closing) i s = Some m ->
    exists x, m_group m = Some x /\ x <> [] /\ forallb (not_char d) x = true.
Proof.
  induction s as [|c t IH]; intros i m; cbn [search].
  - destruct (match_at _ i []) eqn:E; [|discriminate].
    intros H. injection H as <-. eapply between_pattern_group; eauto.
  - destruct (match_at _ i (c :: t)) eqn:E.
    + intros H. injection H as <-. eapply between_pattern_group; eauto.
    + apply IH.
Qed.

Lemma occurs_within_none (w s : jsstring) (n k : nat) :
  occurs_within w s n = false -> k < n ->
  strip_prefix false w (skipn k s) = None.
Proof.
  unfold occurs_within. intros H Hk.
  destruct (strip_prefix false w (skipn k s)) eqn:E; auto.
  assert (existsb (fun k => match strip_prefix false w (skipn k s) with
                            | Some _ => true
                            | None => false
                            end) (seq 0 n) = true) as Ht.
  { apply existsb_exists. exists k. split; [apply in_seq; lia|].
    now rewrite E. }
  congruence.
Qed.

Lemma run_len_until (d : char) (x after : jsstring) :
  forallb (not_char d) x = true ->
  run_len (not_char d) (x ++ d :: after) = length x.
Proof.
  induction x as [|c t IH]; cbn [forallb app length].
  - intros _. rewrite run_len_cons. unfold not_char.
    now rewrite N.eqb_refl.
  - intros H. apply andb_true_iff in H. destruct H as [Hc Ht].
    rewrite run_len_cons, Hc. now rewrite IH.
Qed.

(** [open([^d]+)close] from the place where [open] stands. *)
Lemma match_at_between (opening closing x after : jsstring) (d : char)
    (i : nat) :
  x <> [] ->
  forallb (not_char d) x = true ->
  match_at (between_pattern opening d (d :: closing)) i
           (opening ++ x ++ (d :: closing) ++ after) =
  Some (mkResult i (i + length opening + length x + length (d :: closing))
                 after (Some x)).
Proof.
  intros Hx Hp. unfold match_at, between_pattern.
  cbn [ignoreCase source seqs run rest pos cap].
  rewrite strip_prefix_same. cbn [flat_map]. rewrite app_nil_r.
  cbn [rest pos cap plus].
  change ((d :: closing) ++ after) with (d :: closing ++ after).
  unfold plus. cbn [run rest].
  rewrite (run_len_until d x (closing ++ after) Hp).
  remember (length x) as n eqn:Hn. destruct n as [|n].
  { destruct x; [contradiction | discriminate Hn]. }
  rewrite rep_counts_plus_greedy, Hn. cbn [map flat_map].
  cbn [advance pos rest cap run].
  replace (skipn (length x) (x ++ d :: closing ++ after))
    with ((d :: closing) ++ after)
    by (now rewrite skipn_app, skipn_all, Nat.sub_diag).
  rewrite strip_prefix_same. cbn [app].
  replace (i + length opening + length x - (i + length opening))
    with (length x) by lia.
  replace (firstn (length x) (x ++ d :: closing ++ after))
    with x
    by (now rewrite firstn_app, firstn_all, Nat.sub_diag, firstn_O,
                    app_nil_r).
  reflexivity.
Qed.

Lemma match_at_between_none (opening closing : jsstring) (d : char) (i : nat)
    (s : jsstring) :
  strip_prefix false opening s = None ->
  match_at (between_pattern opening d closing) i s = None.
Proof.
  intros H. unfold match_at, between_pattern.
  cbn [ignoreCase source seqs run rest]. now rewrite H.
Qed.

Lemma search_found (re : regexp) (i : nat) (s : jsstring) (m : mresult) :
  match_at re i s = Some m -> search re i s = Some m.
Proof. intros H. destruct s; cbn [search]; now rewrite H. Qed.

(** The leftmost match is the first place where [open] stands. *)
Lemma exec_between (opening closing x after : jsstring) (d : char)
    (before : jsstring) :
  x <> [] ->
  forallb (not_char d) x = true ->
  occurs_within opening
    (before ++ opening ++ x ++ (d :: closing) ++ after) (length before)
  = false ->
  group_or_null
    (exec (between_pattern opening d (d :: closing))
          (before ++ opening ++ x ++ (d :: closing) ++ after)) = Some x.
Proof.
  intros Hx Hp Ho. unfold exec.
  set (s := opening ++ x ++ (d :: closing) ++ after) in *.
  assert (forall pre i,
            (forall k, k < length pre ->
                       strip_prefix false opening (skipn k (pre ++ s)) = None) ->
            group_or_null
              (search (between_pattern opening d (d :: closing)) i (pre ++ s))
            = Some x) as Hs.
  { induction pre as [|c t IH]; intros i Hn.
    - cbn [app].
      pose proof (match_at_between opening closing x after d i Hx Hp) as Hm.
      fold s in Hm. now rewrite (search_found _ _ _ _ Hm).
    - cbn [app search].
      rewrite match_at_between_none by (apply (Hn 0); cbn; lia).
      apply IH. intros k Hk. apply (Hn (S k)). cbn. lia. }
  apply Hs. intros k Hk. eapply occurs_within_none; eauto.
Qed.

End EntryResponses.

(** X25.  An identifier and an address that [parseEntryResponse] reports
    are never empty; the identifier holds no [<] and the address no double
    quote. *)
Theorem parseEntryResponse_fields (responseData : jsstring) :
  match HatenaBlogService.entry_id
          (HatenaBlogService.parseEntryResponse responseData) with
  | Some x => x <> [] /\ forallb (HatenaBlogService.not_char 60%N) x = true
  | None => True
  end
  /\ match HatenaBlogService.url
             (HatenaBlogService.parseEntryResponse responseData) with
     | Some x => x <> [] /\ forallb (HatenaBlogService.not_char 34%N) x = true
     | None => True
     end.
Proof.
  unfold HatenaBlogService.parseEntryResponse.
  cbn [HatenaBlogService.entry_id HatenaBlogService.url].
  unfold exec, HatenaBlogService.id_pattern, HatenaBlogService.link_pattern.
  split.
  - destruct (search _ 0 responseData) as [m|] eqn:E; cbn; auto.
    destruct (search_between_group _ _ _ _ _ _ E) as (x & -> & Hx). exact Hx.
  - destruct (search _ 0 responseData) as [m|] eqn:E; cbn; auto.
    destruct (search_between_group _ _ _ _ _ _ E) as (x & -> & Hx). exact Hx.
Qed.

(** X26.  The identifier reported is the text between the first [<id>]
    of the answer and the [</id>] that follows it, when that text is not
    empty and holds no [<]. *)
Theorem parseEntryResponse_id (before x after : jsstring) :
  x <> [] ->
  forallb (HatenaBlogService.not_char 60%N) x = true ->
  occurs_within (lit "<id>")
    (before ++ lit "<id>" ++ x ++ lit "</id>" ++ after) (length before)
  = false ->
  HatenaBlogService.entry_id
    (HatenaBlogService.parseEntryResponse
       (before ++ lit "<id>" ++ x ++ lit "</id>" ++ after)) = Some x.
Proof.
  intros Hx Hp Ho. unfold HatenaBlogService.parseEntryResponse.
  cbn [HatenaBlogService.entry_id].
  apply (exec_between (lit "<id>") (lit "/id>") x after 60%N before Hx Hp Ho).
Qed.

(** * The pipeline, again *)

Section Completeness.

Variable load : jsstring -> handle.
Variable Date_parse : jsstring -> option Z.

(** X12.  While the clock is in the range of [Date], an email whose
    author resolves to a non-empty name and whose content is found gives a
    record, with that author and content, the category of the subject, the
    images and links of the document and a copy of the subject, sender and
    date of the email. *)
Theorem extractPostData_complete (now : Z) (email : Email)
    (a c : jsstring) :
  (Z.abs now <= 8640000000000000)%Z ->
  extractAuthor (subject email) (load (body email)) = Normal (Some a) ->
  a <> [] ->
  extractContent (load (body email)) = Some c ->
  exists d,
    parseDate Date_parse now (date email) = Normal d
    /\ extractPostData load Date_parse now email =
       Some (mkPostData (Some a) (Some c)
               (extractPostType (subject email) (load (body email))) d
               (extractImages (load (body email)))
               (extractLinks (load (body email)))
               (mkOriginal (subject email) (from email) (date email))).
Proof.
  intros Hn Ha Hne Hc.
  assert (exists d, parseDate Date_parse now (date email) = Normal d)
    as [d Hd].
  { unfold parseDate, Date_now.
    destruct (Date_of_string Date_parse (date email));
      cbn [JsDate.toISOString try_catch]; eauto.
    rewrite TimeClip_valid by exact Hn. cbn [JsDate.toISOString]. eauto. }
  exists d. split; [exact Hd|].
  unfold extractPostData. rewrite Ha, Hd, Hc. cbn [bind author content].
  destruct a as [|x a]; [contradiction|].
  destruct c as [|y c]; [destruct (extractContent_nonempty _ _ Hc eq_refl)|].
  reflexivity.
Qed.

End Completeness.

(** X22.  With no target user configured every author is a target;
    otherwise the targets are the names listed, compared character by
    character, and a missing author is none. *)
Theorem isTargetUser_listed (targetUsers : list jsstring) (a : jsstring) :
  Automation.isTargetUser [] (Some a) = true
  /\ (targetUsers <> [] ->
      (Automation.isTargetUser targetUsers (Some a) = true
       <-> In a targetUsers)
      /\ Automation.isTargetUser targetUsers None = false).
Proof.
  split; [reflexivity|]. intros Hne.
  unfold Automation.isTargetUser.
  destruct targetUsers as [|t more]; [contradiction|].
  cbn [length Nat.eqb orb]. split; [|reflexivity].
  rewrite existsb_exists. split.
  - intros (x & Hin & Hx). apply eqb_eq in Hx. now subst.
  - intros Hin. exists a. split; auto.
    clear. induction a as [|c s IH]; cbn [Js.eqb]; auto.
    now rewrite N.eqb_refl.
Qed.

(** * The further properties at sample inputs *)

Section FurtherSamples.

Import Fixtures Samples Automation.

(** X5, at the document of the book-club notification. *)
Lemma extractContent_shape_witness :
  extractContent novel_doc
  = Some (lit "Just finished reading this amazing novel!")
  /\ lit "Just finished reading this amazing novel!" <> []
  /\ collapsed (lit "Just finished reading this amazing novel!") = true.
Proof.
  assert (extractContent novel_doc
          = Some (lit "Just finished reading this amazing novel!")) as H
    by (vm_compute; reflexivity).
  split; [exact H|].
  destruct (extractContent_shape novel_doc _ H) as (A & B & _).
  split; assumption.
Defined.

(** X7, at the subject of the book-club notification. *)
Lemma extractAuthor_of_subject_witness :
  extractAuthor (lit "Jane Doe" ++ lit " posted in" ++ lit " Book Club group")
                (plain [])
  = Normal (Some (trim (lit "Jane Doe"))).
Proof.
  apply (extractAuthor_of_subject (lit "Jane Doe") (lit " Book Club group")
                                  (plain [])).
  - vm_compute. discriminate.
  - vm_compute. reflexivity.
  - vm_compute. reflexivity.
Defined.

(** X9, at a greeting of two letters. *)
Lemma isPostContent_short_witness :
  length (lit "Hi") <= 5 /\ isPostContent (lit "Hi") = false.
Proof.
  assert (length (lit "Hi") <= 5) as H by (vm_compute; lia).
  split; [exact H|].
  apply (isPostContent_short (lit "Hi") H). vm_compute. reflexivity.
Defined.

(** X15, at a comparison. *)
Lemma escapeXml_injective_witness :
  HatenaBlogService.escapeXml (lit "a<b & c")
  = HatenaBlogService.escapeXml (lit "a<b" ++ lit " & c")
  /\ lit "a<b & c" = lit "a<b" ++ lit " & c".
Proof.
  assert (HatenaBlogService.escapeXml (lit "a<b & c")
          = HatenaBlogService.escapeXml (lit "a<b" ++ lit " & c")) as H
    by (vm_compute; reflexivity).
  split; [exact H|].
  exact (escapeXml_injective (lit "a<b & c") (lit "a<b" ++ lit " & c") H).
Defined.

(** X18, at an author whose name has a blank and a slash. *)
Lemma draft_filename_safe_witness :
  (Z.abs 1700000000000 <= 8640000000000000)%Z
  /\ exists name,
       FileManager.draft_filename 1700000000000 (lit "Jane /Doe")
       = Normal name
       /\ length name <= 87
       /\ forallb plain_char name = true.
Proof.
  assert (Z.abs 1700000000000 <= 8640000000000000)%Z as H by (simpl; lia).
  split; [exact H|].
  exact (draft_filename_safe 1700000000000 (lit "Jane /Doe") H).
Defined.

(** X19, at the book-club notification with collaborators that
    succeed. *)
Lemma processEmail_marks_last_witness :
  snd (sample_process novel_message) = Normal tt
  /\ exists before,
       fst (sample_process novel_message) =
       before ++ [MarkAsProcessed jsstring (id novel_message)].
Proof.
  assert (snd (sample_process novel_message) = Normal tt) as H
    by (vm_compute; reflexivity).
  split; [exact H|].
  destruct (processEmail_marks_last jsstring (fun _ => novel_doc)
              parse_epoch_only sample_clock [] true sample_article
              sample_save sample_done sample_done novel_message)
    as (_ & _ & Hl & _).
  exact (Hl H).
Defined.

(** X20, at the same run: the article published is the one generated. *)
Lemma publishPost_only_after_draft_witness :
  In (PublishPost (lit "# Just finished reading this amazing novel!"))
     (fst (sample_process novel_message))
  /\ exists postData,
       extractPostData (fun _ => novel_doc) parse_epoch_only
                       (sample_clock novel_message) (email novel_message)
       = Some postData
       /\ sample_article postData
          = Normal (lit "# Just finished reading this amazing novel!").
Proof.
  assert (In (PublishPost (lit "# Just finished reading this amazing novel!"))
             (fst (sample_process novel_message))) as H
    by (vm_compute; tauto).
  split; [exact H|].
  destruct (publishPost_only_after_draft jsstring (fun _ => novel_doc)
              parse_epoch_only sample_clock [] true sample_article
              sample_save sample_done sample_done novel_message _ H)
    as (_ & postData & A & _ & B & _).
  exists postData. split; assumption.
Defined.

(** X21, at a batch of a blank message and the book-club notification. *)
Lemma processNewEmails_isolates_witness :
  In (MarkAsProcessed jsstring (id novel_message))
     (fst (sample_process_new false)).
Proof.
  destruct (processNewEmails_isolates jsstring (fun _ => novel_doc)
              parse_epoch_only sample_clock [] true
              (Normal [blank_message; novel_message])
              sample_article sample_save sample_done sample_done
              [blank_message; novel_message] novel_message)
    as (_ & _ & H).
  apply H.
  - reflexivity.
  - right. left. reflexivity.
  - vm_compute. reflexivity.
Defined.

(** X11, at a footer in capitals. *)
Lemma isSystemMessage_phrase_witness :
  isSystemMessage (lit "To " ++ lit "UNSUBSCRIBE" ++ lit ", click here")
  = true.
Proof.
  apply (isSystemMessage_phrase "unsubscribe" (lit "To ") (lit "UNSUBSCRIBE")
                                (lit ", click here")).
  - cbn. tauto.
  - vm_compute. reflexivity.
Defined.

(** X10, at an address in capitals. *)
Lemma isPostContent_opener_witness :
  isPostContent (lit "HTTP" ++ lit "://example.test/a-long-address") = false.
Proof.
  apply (isPostContent_opener "http" (lit "HTTP")
                              (lit "://example.test/a-long-address")).
  - cbn. tauto.
  - vm_compute. reflexivity.
Defined.

(** X23, at a record with 2,000 characters, 10 images and 10 links. *)
Lemma generator_importance_range_witness :
  exists q,
    BlogGenerator.calculateImportance (record_of 2000 post 10 10) = Normal q
    /\ (1 <= q <= 10)%Q.
Proof.
  apply (generator_importance_range (record_of 2000 post 10 10)
                                    (repeat 97%N 2000)).
  reflexivity.
Defined.

(** X24, at a photo post that names two keywords. *)
Lemma generateTags_distinct_witness :
  exists tags,
    BlogTags.generateTags ascii_lower web_record = Normal tags
    /\ NoDup tags
    /\ hd_error tags = Some (Some (lit "Facebook"))
    /\ In (author web_record) tags
    /\ length tags <= 12.
Proof.
  apply (generateTags_distinct ascii_lower web_record
                               (lit "Our new Web app uses AI")).
  reflexivity.
Defined.

(** X26, at an answer with one identifier. *)
Lemma parseEntryResponse_id_witness :
  HatenaBlogService.entry_id
    (HatenaBlogService.parseEntryResponse
       (answer_before ++ lit "<id>" ++ answer_id ++ lit "</id>"
        ++ answer_after)) = Some answer_id.
Proof.
  apply (parseEntryResponse_id answer_before answer_id answer_after).
  - vm_compute. discriminate.
  - vm_compute. reflexivity.
  - vm_compute. reflexivity.
Defined.

(** X12, at the book-club notification. *)
Lemma extractPostData_complete_witness :
  exists d,
    parseDate parse_epoch_only 1700000000000 (date novel_email) = Normal d
    /\ extractPostData (fun _ => novel_doc) parse_epoch_only 1700000000000
                       novel_email =
       Some (mkPostData (Some (lit "Jane Doe"))
               (Some (lit "Just finished reading this amazing novel!"))
               (extractPostType (subject novel_email) novel_doc) d
               (extractImages novel_doc) (extractLinks novel_doc)
               (mkOriginal (subject novel_email) (from novel_email)
                           (date novel_email))).
Proof.
  apply (extractPostData_complete (fun _ => novel_doc) parse_epoch_only
           1700000000000 novel_email).
  - simpl. lia.
  - vm_compute. reflexivity.
  - vm_compute. discriminate.
  - vm_compute. reflexivity.
Defined.

(** X22, at a list of two targets. *)
Lemma isTargetUser_listed_witness :
  [lit "Jane Doe"; lit "John Roe"] <> []
  /\ (isTargetUser [lit "Jane Doe"; lit "John Roe"] (Some (lit "John Roe"))
      = true
      <-> In (lit "John Roe") [lit "Jane Doe"; lit "John Roe"]).
Proof.
  assert ([lit "Jane Doe"; lit "John Roe"] <> []) as H by discriminate.
  split; [exact H|].
  exact (proj1 (proj2 (isTargetUser_listed [lit "Jane Doe"; lit "John Roe"]
                                           (lit "John Roe")) H)).
Defined.

End FurtherSamples.
